(** * libvqm netlist construction core ([vqm_common.c]): a shallow embedding

    The C globals ([pin_list], [assignment_list], [node_list], [module_list],
    [most_recently_used_node]) become the fields of one [state] record that is
    threaded through every operation.  [malloc]'d pins and nodes live in typed
    stores indexed by address, so that pointer identity and aliasing are
    visible.  A failed [assert] is the outcome [AssertFail]; dereferencing a
    null or freed pointer, and signed overflow, are the outcome [Fault].

    C [int] values are rendered as [Z].  Where [add_assignment] and
    [calculate_array_size_using_bounds] compute on net bounds and element
    counts, the result is checked against the [int] range and an overflow is
    the outcome [Fault]; reading a block that was allocated and never written
    is [Fault] as well. *)

From Stdlib Require Import ZArith Lia Bool List Ascii String DecimalString.
From stdpp Require Import base tactics option list strings sorting.

Local Open Scope Z_scope.

(** ** Outcomes of a C call *)

Inductive result (A : Type) : Type :=
| Ok (a : A)       (* normal return *)
| AssertFail       (* [assert] failed: the fatal contract violation *)
| Fault            (* undefined behaviour: bad dereference, signed overflow,
                      read of unwritten memory *)
| OutOfFuel.       (* the bounded unrolling of a loop was too short *)
Arguments Ok {A} a.
Arguments AssertFail {A}.
Arguments Fault {A}.
Arguments OutOfFuel {A}.

Definition rbind {A B} (r : result A) (k : A -> result B) : result B :=
  match r with
  | Ok a => k a
  | AssertFail => AssertFail
  | Fault => Fault
  | OutOfFuel => OutOfFuel
  end.

Notation "'let*' p := r 'in' k" := (rbind r (fun p => k))
  (at level 10, p pattern, r at level 100, k at level 200).

Definition assert {A} (b : bool) (k : result A) : result A :=
  if b then k else AssertFail.

(** [p != NULL] *)
Definition non_null {A} (p : option A) : bool :=
  if p is Some _ then true else false.

Definition INT_MAX : Z := 2147483647.
Definition INT_MIN : Z := -2147483648.

(** The value of an [int] expression: defined when it fits an [int]. *)
Definition as_int (z : Z) : result Z :=
  if (INT_MIN <=? z) && (z <=? INT_MAX) then Ok z else Fault.

(** ** Array functions *)

Definition MINIMUM_ARRAY_SIZE : Z := 4.
Definition UPPER_GROWTH_BOUND : Z := 128.

(** [while (array_size > 0) { array_size = array_size >> 1; power_count++; }] *)
Fixpoint shift_down (fuel : nat) (array_size power_count : Z) : option (Z * Z) :=
  if 0 <? array_size then
    match fuel with
    | O => None
    | S fuel' => shift_down fuel' (Z.shiftr array_size 1) (power_count + 1)
    end
  else Some (array_size, power_count).

Definition calculate_array_size_using_bounds (element_count : Z) : result Z :=
  let power_count := 0 in
  let array_size := element_count in
  assert (0 <=? array_size)
    (if array_size <=? MINIMUM_ARRAY_SIZE then Ok MINIMUM_ARRAY_SIZE
     else if UPPER_GROWTH_BOUND <? array_size then
       let array_size := UPPER_GROWTH_BOUND * (Z.quot array_size UPPER_GROWTH_BOUND + 1) in
       (* the product is an [int]: beyond [INT_MAX] the multiplication overflows *)
       if array_size <=? INT_MAX then Ok array_size else Fault
     else
       (* an [int] has 32 bits, so 32 halvings always reach 0 *)
       match shift_down 32 array_size power_count with
       | None => OutOfFuel
       | Some (_, power_count) =>
           let power_count := power_count + 1 in
           Ok (Z.shiftl 1 power_count)
       end).

(** The capacity the specification describes, as a relation between the
    element count and the capacity. *)
Definition is_pow2 (c : Z) : Prop := exists k, 0 <= k /\ c = 2 ^ k.

Definition is_least (P : Z -> Prop) (c : Z) : Prop :=
  P c /\ forall c', P c' -> c <= c'.

Definition claimed_capacity (n c : Z) : Prop :=
  (n <= 128 -> is_least (fun c => is_pow2 c /\ Z.max 4 n <= c) c) /\
  (128 < n -> is_least (fun c => (128 | c) /\ n <= c) c).

Definition capacity_table_ok (n : Z) : bool :=
  match calculate_array_size_using_bounds n with
  | Ok c => c =? 4 * 2 ^ Z.log2 n
  | _ => false
  end.

(** ** Data model *)

(** A pointer is the address of a block in one of the typed stores below. *)
Definition ptr : Type := nat.

(** Modelled from the spec: the enumeration [t_pin_def_type] is declared in
    [vqm_dll.h], which is not among the sources; the specification lists the
    kinds Input, Output and InternalWire. *)
Inductive t_pin_def_type : Type := PIN_INPUT | PIN_OUTPUT | PIN_WIRE.

Record t_pin_def : Type := mk_pin {
  pin_name : string;
  pin_left : Z;
  pin_right : Z;
  pin_type : t_pin_def_type;
  pin_indexed : bool
}.

Record t_assign : Type := mk_assign {
  source : option ptr;
  source_index : Z;
  target : ptr;
  target_index : Z;
  is_tristated : bool;
  tri_control : option ptr;
  tri_control_index : Z;
  value : Z;
  inversion_flag : bool
}.

Record t_node_port_association : Type := mk_assoc {
  port_name : string;
  port_index : Z;
  associated_net : ptr;
  wire_index : Z
}.

Inductive t_node_parameter_value : Type :=
| integer_value (i : Z)
| string_value (s : string).

Record t_node_parameter : Type := mk_param {
  param_name : string;
  param_value : t_node_parameter_value
}.

Record t_node : Type := mk_node {
  node_type : string;
  node_name : string;
  array_of_params : list t_node_parameter;
  array_of_ports : list t_node_port_association
}.

Record t_module : Type := mk_module {
  module_name : string;
  array_of_pins : list ptr;
  array_of_assignments : list t_assign;
  array_of_nodes : list ptr
}.

Record t_identifier_pass : Type := mk_ident {
  ident_name : string;
  ident_indexed : bool;
  ident_index : Z
}.

(** What [printf] writes. *)
Inductive message : Type :=
| Warning_duplicate_net (name : string) (line : Z).

(** A [t_array_ref*] is [None] when it is [NULL] and otherwise the sequence of
    its [array_size] elements. *)
Record state : Type := mk_state {
  pin_store : list (option t_pin_def);   (* [t_pin_def] blocks; [None] once freed *)
  node_store : list t_node;              (* [t_node] blocks *)
  module_list : option (list t_module);
  assignment_list : option (list t_assign);
  node_list : option (list ptr);
  pin_list : option (list ptr);
  most_recently_used_node : option ptr;
  yylineno : Z;                          (* the lexer's line counter *)
  console : list message
}.

Definition initial_state : state :=
  mk_state [] [] None None None None None 1 [].

Definition set_pin_store (f : list (option t_pin_def) -> list (option t_pin_def)) (st : state) : state :=
  mk_state (f (pin_store st)) (node_store st) (module_list st) (assignment_list st)
    (node_list st) (pin_list st) (most_recently_used_node st) (yylineno st) (console st).
Definition set_node_store (f : list t_node -> list t_node) (st : state) : state :=
  mk_state (pin_store st) (f (node_store st)) (module_list st) (assignment_list st)
    (node_list st) (pin_list st) (most_recently_used_node st) (yylineno st) (console st).
Definition set_module_list (v : option (list t_module)) (st : state) : state :=
  mk_state (pin_store st) (node_store st) v (assignment_list st)
    (node_list st) (pin_list st) (most_recently_used_node st) (yylineno st) (console st).
Definition set_assignment_list (v : option (list t_assign)) (st : state) : state :=
  mk_state (pin_store st) (node_store st) (module_list st) v
    (node_list st) (pin_list st) (most_recently_used_node st) (yylineno st) (console st).
Definition set_node_list (v : option (list ptr)) (st : state) : state :=
  mk_state (pin_store st) (node_store st) (module_list st) (assignment_list st)
    v (pin_list st) (most_recently_used_node st) (yylineno st) (console st).
Definition set_pin_list (v : option (list ptr)) (st : state) : state :=
  mk_state (pin_store st) (node_store st) (module_list st) (assignment_list st)
    (node_list st) v (most_recently_used_node st) (yylineno st) (console st).
Definition set_most_recently_used_node (v : option ptr) (st : state) : state :=
  mk_state (pin_store st) (node_store st) (module_list st) (assignment_list st)
    (node_list st) (pin_list st) v (yylineno st) (console st).
Definition printf (m : message) (st : state) : state :=
  mk_state (pin_store st) (node_store st) (module_list st) (assignment_list st)
    (node_list st) (pin_list st) (most_recently_used_node st) (yylineno st)
    (console st ++ [m]).

(** [p->field] on a pin pointer. *)
Definition deref_pin (store : list (option t_pin_def)) (p : ptr) : result t_pin_def :=
  match store !! p with
  | Some (Some pin) => Ok pin
  | _ => Fault
  end.

(** [array[index]] with a C [int] index. *)
Definition element {A} (array : list A) (index : Z) : result A :=
  if index <? 0 then Fault
  else match array !! Z.to_nat index with
       | Some x => Ok x
       | None => Fault
       end.

(** [strcmp]: only the sign of its result is used; bytes compare unsigned. *)
Definition strcmp (a b : string) : comparison := String.compare a b.

(** Modelled from the spec: [my_min] and [my_abs] are macros of
    [vqm_common.h], which is not among the sources; they are the minimum and
    the absolute value, as in the specification's [min(left,right)]. *)
Definition my_min (a b : Z) : Z := if a <? b then a else b.
Definition my_abs (a : Z) : Z := if a <? 0 then - a else a.

(** [append_array_element]: the element goes to position [element_count].
    The reallocation to the capacity [calculate_array_size_using_bounds] gives
    does not show on the sequence of elements. *)
Definition append_array_element {A} (elem : A) (array : list A) : list A :=
  array ++ [elem].

(** [for (index = element_count - 1; index >= insert_index; index--)
       new_array[index+1] = new_array[index];]
    with [k] the number of iterations left. *)
Fixpoint move_over {A} (insert_index k : nat) (new_array : list A) : list A :=
  match k with
  | O => new_array
  | S k' =>
      let index := (insert_index + k')%nat in
      let new_array :=
        match new_array !! index with
        | Some x => <[S index := x]> new_array
        | None => new_array
        end in
      move_over insert_index k' new_array
  end.

Definition insert_element_at_index {A} (elem : A) (array : list A)
    (insert_index : Z) : result (list A) :=
  let element_count := Z.of_nat (length array) in
  assert ((0 <=? insert_index) && (insert_index <=? element_count))
    (let new_array := append_array_element elem array in
     if negb (element_count =? 0) && negb (insert_index =? element_count) then
       let i := Z.to_nat insert_index in
       let new_array := move_over i (length array - i) new_array in
       Ok (<[i := elem]> new_array)
     else Ok new_array).

(** ** Ordered net index *)

(** [((t_pin_def * ) net_list->pointer[index])->name] *)
Definition net_name (store : list (option t_pin_def)) (net_list : list ptr)
    (index : Z) : result string :=
  let* net := element net_list index in
  let* pin := deref_pin store net in
  Ok (pin_name pin).

(** The [while (left <= right)] loop of the binary search; it returns the last
    value of [index]. *)
Fixpoint search_loop (fuel : nat) (store : list (option t_pin_def)) (name : string)
    (net_list : list ptr) (left right index : Z) : result Z :=
  if left <=? right then
    match fuel with
    | O => OutOfFuel
    | S fuel' =>
        let index := Z.quot (left + right) 2 in
        let* net := net_name store net_list index in
        match strcmp name net with
        | Gt => search_loop fuel' store name net_list (index + 1) right index
        | Lt => search_loop fuel' store name net_list left (index - 1) index
        | Eq => Ok index
        end
    end
  else Ok index.

Definition find_position_for_net_in_array (store : list (option t_pin_def))
    (name : string) (net_list : list ptr) : result Z :=
  let array_size := Z.of_nat (length net_list) in
  let left := 0 in
  let right := array_size - 1 in
  if right <? 0 then Ok 0
  else
    let* net := net_name store net_list right in
    if strcmp name net is Gt then Ok array_size
    else
      let* net := net_name store net_list left in
      if strcmp name net is Lt then Ok 0
      else
        let* index := search_loop (length net_list) store name net_list left right 0 in
        let position := index in
        if position <? array_size then
          let* net := net_name store net_list position in
          if strcmp net name is Lt then Ok (position + 1) else Ok position
        else Ok position.

(** [locate_net_by_name]: [None] is the [NULL] result. *)
Definition locate_net_by_name (name : string) (st : state) : result (option ptr) :=
  match pin_list st with
  | None => AssertFail
  | Some net_list =>
      let* index := find_position_for_net_in_array (pin_store st) name net_list in
      if index <? Z.of_nat (length net_list) then
        let* result := element net_list index in
        let* pin := deref_pin (pin_store st) result in
        if strcmp (pin_name pin) name is Eq then Ok (Some result) else Ok None
      else Ok None
  end.

Definition add_pin (name : string) (left right : Z) (type : t_pin_def_type)
    (st : state) : result (ptr * state) :=
  (* malloc and fill in the new pin *)
  let pin := length (pin_store st) in
  let new_pin := mk_pin name left right type (negb (left =? right)) in
  let st := set_pin_store (fun s => s ++ [Some new_pin]) st in
  (* create the pin list if not present already *)
  let st := match pin_list st with
            | None => set_pin_list (Some []) st
            | Some _ => st
            end in
  let net_list := default [] (pin_list st) in
  let* index := find_position_for_net_in_array (pin_store st) name net_list in
  let insert (_ : unit) :=
    let* net_list := insert_element_at_index pin net_list index in
    Ok (pin, set_pin_list (Some net_list) st) in
  if (0 <=? index) && (index <? Z.of_nat (length net_list)) then
    let* test_pin := element net_list index in
    let* test := deref_pin (pin_store st) test_pin in
    if strcmp (pin_name test) name is Eq then
      let st := printf (Warning_duplicate_net name (yylineno st)) st in
      (* free(pin) *)
      let st := set_pin_store (fun s => <[pin := None]> s) st in
      Ok (test_pin, st)
    else insert ()
  else insert ().

(** [create_pins_from_list]: every identifier of the list is declared with
    [add_pin], and the [indexed] flag of the pin [add_pin] returned is then
    overwritten through the pointer. *)
Definition set_indexed (indexed : bool) (pin : option t_pin_def) : option t_pin_def :=
  match pin with
  | Some p => Some (mk_pin (pin_name p) (pin_left p) (pin_right p) (pin_type p) indexed)
  | None => None
  end.

Fixpoint create_pins_from_list (list_of_pins : list t_identifier_pass)
    (left right : Z) (type : t_pin_def_type) (indexed : bool) (st : state) : result state :=
  match list_of_pins with
  | [] => Ok st
  | identifier :: rest =>
      let* (new_pin, st) := add_pin (ident_name identifier) left right type st in
      let* _ := deref_pin (pin_store st) new_pin in
      let st := set_pin_store (fun s => alter (set_indexed indexed) new_pin s) st in
      create_pins_from_list rest left right type indexed st
  end.

(** ** Assignments *)

(** The pair [(min, max)] of a pin's bounds, as [add_assignment] computes it
    for the source, the target and the tristate control. *)
Definition pin_bounds (pin : t_pin_def) : Z * Z :=
  let max := pin_left pin in
  if max <? pin_right pin then (pin_left pin, pin_right pin)
  else (pin_right pin, max).

(** [for (wire_index = target_min; wire_index != target_max + 1; wire_index++)]
    of the bus branch, with [k] the number of iterations left. *)
Fixpoint expand_bus (k : nat) (wire_index source_index : Z)
    (source : option ptr) (target : ptr) (tristated : bool)
    (tri_control : option ptr) (tri_control_index constant : Z) (invert : bool)
    (assignments : list t_assign) : result (list t_assign) :=
  match k with
  | O => Ok assignments
  | S k' =>
      let assignment :=
        mk_assign source (if source is Some _ then source_index else 0)
          target wire_index tristated tri_control tri_control_index constant invert in
      let* source_index :=
        if source is Some _ then as_int (source_index + 1) else Ok source_index in
      let assignments := append_array_element assignment assignments in
      let* wire_index := as_int (wire_index + 1) in
      expand_bus k' wire_index source_index source target tristated
        tri_control tri_control_index constant invert assignments
  end.

Definition add_assignment (source : option ptr) (source_index : Z)
    (target : option ptr) (target_index : Z) (tristated : bool)
    (tri_control : option ptr) (tri_control_index : Z) (constant : Z)
    (invert : bool) (st : state) : result state :=
  match target with
  | None => AssertFail
  | Some target =>
  assert (non_null tri_control || negb tristated) (
  let* (source_index, source_min, source_max) :=
    match source with
    | Some s =>
        let* src := deref_pin (pin_store st) s in
        let '(source_min, source_max) := pin_bounds src in
        let* difference := as_int (pin_left src - pin_right src) in
        let* source_index :=
          if difference =? 0 then as_int (source_min - 1) else Ok source_index in
        let* lowest := as_int (source_min - 1) in
        assert ((lowest <=? source_index) && (source_index <=? source_max))
          (Ok (source_index, source_min, source_max))
    | None => Ok (source_index, 0, 0)
    end in
  let* tgt := deref_pin (pin_store st) target in
  let '(target_min, target_max) := pin_bounds tgt in
  let* lowest := as_int (target_min - 1) in
  assert ((lowest <=? target_index) && (target_index <=? target_max)) (
  let* _ :=
    if tristated then
      let* c := match tri_control with Some c => Ok c | None => Fault end in
      let* ctl := deref_pin (pin_store st) c in
      let '(tri_min, tri_max) := pin_bounds ctl in
      let* tri_lowest := as_int (tri_min - 1) in
      assert ((tri_lowest <=? tri_control_index) && (tri_control_index <=? tri_max))
        (Ok tt)
    else Ok tt in
  let* difference := as_int (pin_left tgt - pin_right tgt) in
  let* target_index :=
    if difference =? 0 then as_int (pin_left tgt - 1) else Ok target_index in
  let assignments := default [] (assignment_list st) in
  let* span := as_int (target_max - target_min) in
  if ((0 <? span) && (lowest <? target_index)) || negb (pin_indexed tgt)
  then
    let assignment :=
      mk_assign source source_index target target_index tristated
        tri_control tri_control_index constant invert in
    Ok (set_assignment_list (Some (append_array_element assignment assignments)) st)
  else
    let* _ :=
      match source with
      | Some _ =>
          let* source_span := as_int (source_max - source_min) in
          assert (span <=? source_span) (Ok tt)
      | None => Ok tt
      end in
    let source_index := source_min in
    let* stop := as_int (target_max + 1) in
    let* assignments :=
      expand_bus (Z.to_nat (stop - target_min)) target_min source_index source
        target tristated tri_control tri_control_index constant invert
        assignments in
    Ok (set_assignment_list (Some assignments) st)))
  end.

(** ** Modules *)

(** [add_module] receives the addresses of three array references and leaves
    [NULL] in each; the triple returned is what the three references hold
    afterwards. *)
Definition add_module (name : string)
    (pins : option (list ptr)) (assignments : option (list t_assign))
    (nodes : option (list ptr)) (st : state)
  : state * (option (list ptr) * option (list t_assign) * option (list ptr)) :=
  let new_module :=
    mk_module name (default [] pins) (default [] assignments) (default [] nodes) in
  let modules := default [] (module_list st) in
  let st := set_module_list (Some (append_array_element new_module modules)) st in
  (st, (None, None, None)).

(** Modelled from the spec: the call of [add_module] is in the grammar, which
    is not among the sources; per the specification finalize_module wraps the
    current transient net, assignment and node sequences, so the call passes
    the addresses of [pin_list], [assignment_list] and [node_list]. *)
Definition finalize_module (name : string) (st : state) : state :=
  let '(st, (pins, assignments, nodes)) :=
    add_module name (pin_list st) (assignment_list st) (node_list st) st in
  set_node_list nodes (set_assignment_list assignments (set_pin_list pins st)).

(** ** Nodes *)

(** [add_node] fills the port name of every association it creates with
    [strcpy (new_assoc->port_name, (char * ) malloc (...))]: the bytes are
    copied from a block that was just allocated and never written, up to
    whatever zero byte follows.  The read has no defined result. *)
Definition read_unwritten_block : result string := Fault.

(** [for (counter = index + 1; counter < index + offset; counter++)], with [k]
    the number of iterations left. *)
Fixpoint insert_bus_wires (k : nat) (counter wire_index change : Z) (net : ptr)
    (m_ports : list t_node_port_association)
  : result (list t_node_port_association) :=
  match k with
  | O => Ok m_ports
  | S k' =>
      let* port_name := read_unwritten_block in
      let new_assoc := mk_assoc port_name counter net wire_index in
      let wire_index := wire_index + change in
      let* m_ports := insert_element_at_index new_assoc m_ports counter in
      insert_bus_wires k' (counter + 1) wire_index change net m_ports
  end.

(** [for (index = 0; index < m_ports->array_size; index++)]; the body moves
    [index] itself and lengthens the array. *)
Fixpoint expand_ports (fuel : nat) (store : list (option t_pin_def)) (index : Z)
    (m_ports : list t_node_port_association)
  : result (list t_node_port_association) :=
  if index <? Z.of_nat (length m_ports) then
    match fuel with
    | O => OutOfFuel
    | S fuel' =>
        let* association := element m_ports index in
        let* net := deref_pin store (associated_net association) in
        let temp := my_min (pin_left net) (pin_right net) in
        if negb (pin_left net - pin_right net =? 0)
           && (port_index association =? -1)
           && (wire_index association <? temp)
        then
          let offset := my_abs (pin_left net - pin_right net) in
          let association :=
            mk_assoc (port_name association) (offset - 1)
              (associated_net association) (pin_left net) in
          let m_ports := <[Z.to_nat index := association]> m_ports in
          let change := if pin_right net <? pin_left net then -1 else 1 in
          let wire_index := pin_left net + change in
          let* m_ports :=
            insert_bus_wires (Z.to_nat (index + offset - (index + 1))) (index + 1)
              wire_index change (associated_net association) m_ports in
          let index := index + (offset + 1) in
          expand_ports fuel' store (index + 1) m_ports
        else expand_ports fuel' store (index + 1) m_ports
    end
  else Ok m_ports.

Definition add_node (type name : string)
    (ports : option (list t_node_port_association)) (st : state) : result state :=
  match ports with
  | None => AssertFail
  | Some m_ports =>
      (* every pass of the loop leaves fewer entries ahead of [index] *)
      let* m_ports := expand_ports (length m_ports) (pin_store st) 0 m_ports in
      let my_node := length (node_store st) in
      let st := set_node_store (fun s => s ++ [mk_node type name [] m_ports]) st in
      let nodes := default [] (node_list st) in
      let st := set_node_list (Some (append_array_element my_node nodes)) st in
      Ok (set_most_recently_used_node (Some my_node) st)
  end.


(** ** Connections and concatenations *)

Definition create_node_port_association (store : list (option t_pin_def))
    (port_name : string) (port_index : Z) (pin : ptr) (wire_index : Z)
  : result t_node_port_association :=
  let* p := deref_pin store pin in
  assert (((pin_left p <=? wire_index) && (wire_index <=? pin_right p))
          || ((pin_right p <=? wire_index) && (wire_index <=? pin_left p)))
    (Ok (mk_assoc port_name port_index pin wire_index)).

(** [for (index = pin->left + direction; index != pin->right + direction;
         index += direction)] of [associate_identifier_with_port_name]. *)
Fixpoint associate_bus_wires (k : nat) (store : list (option t_pin_def))
    (port_name : string) (port : Z) (pin : ptr) (index direction : Z)
    (connections : list t_node_port_association)
  : result (list t_node_port_association) :=
  match k with
  | O => Ok connections
  | S k' =>
      let* a := create_node_port_association store port_name port pin index in
      associate_bus_wires k' store port_name (port - 1) pin (index + direction)
        direction (append_array_element a connections)
  end.

Definition associate_identifier_with_port_name (ident : t_identifier_pass)
    (port_name : string) (port_index : Z) (st : state)
  : result (option (list t_node_port_association)) :=
  let* found := locate_net_by_name (ident_name ident) st in
  match found with
  | None => Ok None
  | Some pin =>
      let store := pin_store st in
      let* p := deref_pin store pin in
      if ident_indexed ident then
        let* a := create_node_port_association store port_name port_index pin
                    (ident_index ident) in
        Ok (Some (append_array_element a []))
      else if pin_left p - pin_right p =? 0 then
        let local_index := pin_left p in
        let* a := create_node_port_association store port_name port_index pin
                    local_index in
        Ok (Some (append_array_element a []))
      else
        let direction := if pin_right p <? pin_left p then -1 else 1 in
        let port := my_abs (pin_left p - pin_right p) in
        let* a := create_node_port_association store port_name port pin (pin_left p) in
        let* l := associate_bus_wires (Z.to_nat (my_abs (pin_left p - pin_right p)))
                    store port_name (port - 1) pin (pin_left p + direction) direction
                    (append_array_element a []) in
        Ok (Some l)
  end.

(** [for (pin_index = pin->left; pin_index != pin->right + offset;
         pin_index += offset)] of [create_array_of_net_to_port_assignments]. *)
Fixpoint identifiers_of_bus (k : nat) (name : string) (pin_index offset : Z)
    (array_of_identifiers : list (option t_identifier_pass))
  : list (option t_identifier_pass) :=
  match k with
  | O => array_of_identifiers
  | S k' =>
      let new_identifier := mk_ident name true pin_index in
      identifiers_of_bus k' name (pin_index + offset) offset
        (append_array_element (Some new_identifier) array_of_identifiers)
  end.

(** An entry of a concatenation array is [None] when the pointer is [NULL]. *)
Fixpoint net_to_port_loop (con_array : list (option t_identifier_pass)) (st : state)
    (array_of_identifiers : list (option t_identifier_pass))
  : result (list (option t_identifier_pass)) :=
  match con_array with
  | [] => Ok array_of_identifiers
  | None :: rest =>
      net_to_port_loop rest st (append_array_element None array_of_identifiers)
  | Some source :: rest =>
      let* found := locate_net_by_name (ident_name source) st in
      match found with
      | None =>
          net_to_port_loop rest st (append_array_element None array_of_identifiers)
      | Some pin =>
          let* p := deref_pin (pin_store st) pin in
          if (0 <? my_abs (pin_left p - pin_right p)) && negb (ident_indexed source)
          then
            let offset := if pin_right p <? pin_left p then -1 else 1 in
            net_to_port_loop rest st
              (identifiers_of_bus (Z.to_nat (my_abs (pin_left p - pin_right p) + 1))
                 (pin_name p) (pin_left p) offset array_of_identifiers)
          else
            net_to_port_loop rest st
              (append_array_element (Some source) array_of_identifiers)
      end
  end.

Definition create_array_of_net_to_port_assignments
    (con_array : list (option t_identifier_pass)) (st : state)
  : result (list (option t_identifier_pass)) :=
  net_to_port_loop con_array st [].



(** The inner [for] of [add_concatenation_assignments], from [pin->left] to
    [pin->right] in the pin's own direction; [down] is [pin->left > pin->right]
    and [target_down] is [target_pin->left > target_pin->right]. *)
Fixpoint assign_wires (k : nat) (pin : ptr) (wire_index : Z) (down : bool)
    (target_pin : ptr) (target_wire_index : Z) (target_down : bool)
    (invert_wire : bool) (st : state) : result (Z * state) :=
  match k with
  | O => Ok (target_wire_index, st)
  | S k' =>
      let* st := add_assignment (Some pin) wire_index (Some target_pin)
                   target_wire_index false None 0 (-1) invert_wire st in
      let target_wire_index :=
        if target_down then target_wire_index - 1 else target_wire_index + 1 in
      assign_wires k' pin (if down then wire_index - 1 else wire_index + 1) down
        target_pin target_wire_index target_down invert_wire st
  end.

Fixpoint concatenation_loop (con_array : list (option t_identifier_pass))
    (target_pin : ptr) (target_down : bool) (target_wire_index : Z)
    (invert_wire : bool) (st : state) : result state :=
  match con_array with
  | [] => Ok st
  | None :: rest =>
      let target_wire_index :=
        if target_down then target_wire_index - 1 else target_wire_index + 1 in
      concatenation_loop rest target_pin target_down target_wire_index invert_wire st
  | Some source :: rest =>
      let* found := locate_net_by_name (ident_name source) st in
      let* pin := match found with Some pin => Ok pin | None => Fault end in
      let* p := deref_pin (pin_store st) pin in
      let down := pin_right p <? pin_left p in
      let k := Z.to_nat ((if down then pin_left p - pin_right p
                          else pin_right p - pin_left p) + 1) in
      let* (target_wire_index, st) :=
        assign_wires k pin (pin_left p) down target_pin target_wire_index
          target_down invert_wire st in
      concatenation_loop rest target_pin target_down target_wire_index invert_wire st
  end.

Definition add_concatenation_assignments (con_array : list (option t_identifier_pass))
    (target_pin : option ptr) (invert_wire : bool) (st : state) : result state :=
  match target_pin with
  | None => AssertFail
  | Some target_pin =>
      let* t := deref_pin (pin_store st) target_pin in
      let target_wire_index := pin_left t in
      concatenation_loop con_array target_pin (pin_right t <? pin_left t)
        target_wire_index invert_wire st
  end.

(** ** Vocabulary of the statements *)

(** The window [[min - 1, max]] of legal bit indices of a net; [min - 1] is
    the whole-net sentinel. *)
Definition in_window (pin : t_pin_def) (i : Z) : Prop :=
  Z.min (pin_left pin) (pin_right pin) - 1 <= i <= Z.max (pin_left pin) (pin_right pin).

Definition whole_net (pin : t_pin_def) : Z :=
  Z.min (pin_left pin) (pin_right pin) - 1.

Definition scalar (pin : t_pin_def) : Prop := pin_left pin = pin_right pin.

Definition width (pin : t_pin_def) : Z :=
  Z.max (pin_left pin) (pin_right pin) - Z.min (pin_left pin) (pin_right pin).

(** The bounds of a net leave room for the [int] arithmetic made on them:
    [min - 1], [max + 1] and [max - min] all fit an [int]. *)
Definition bounds_fit (pin : t_pin_def) : Prop :=
  INT_MIN < Z.min (pin_left pin) (pin_right pin)
  /\ Z.max (pin_left pin) (pin_right pin) < INT_MAX
  /\ Z.max (pin_left pin) (pin_right pin) - Z.min (pin_left pin) (pin_right pin)
     <= INT_MAX.

Definition bounds_fit_if_any (pin : option t_pin_def) : Prop :=
  match pin with
  | Some pin => bounds_fit pin
  | None => True
  end.

(** The pin (if any) an optional pointer points to. *)
Definition points_to (store : list (option t_pin_def)) (p : option ptr)
    (pin : option t_pin_def) : Prop :=
  match p, pin with
  | None, None => True
  | Some p, Some pin => store !! p = Some (Some pin)
  | _, _ => False
  end.

(** The index checks [add_assignment] makes on the source and on the tristate
    control. *)
Definition source_ok (src : option t_pin_def) (source_index : Z) : Prop :=
  match src with
  | None => True
  | Some src => scalar src \/ in_window src source_index
  end.

Definition control_ok (tristated : bool) (ctl : option t_pin_def)
    (tri_control_index : Z) : Prop :=
  tristated = true ->
  match ctl with
  | None => False
  | Some ctl => in_window ctl tri_control_index
  end.

(** The target is written through the single-assignment branch. *)
Definition single_bit (tgt : t_pin_def) (target_index : Z) : Prop :=
  (~ scalar tgt /\ target_index <> whole_net tgt) \/ pin_indexed tgt = false.

Definition narrower (src : option t_pin_def) (tgt : t_pin_def) : Prop :=
  match src with
  | None => False
  | Some src => width src < width tgt
  end.

(** The source index a single assignment records. *)
Definition recorded_source_index (src : option t_pin_def) (source_index : Z) : Z :=
  match src with
  | Some src => if decide (scalar src) then whole_net src else source_index
  | None => source_index
  end.

Definition recorded_target_index (tgt : t_pin_def) (target_index : Z) : Z :=
  if decide (scalar tgt) then pin_left tgt - 1 else target_index.

(** The records of a bus expansion: target bits ascending from [target_min],
    source bits (when there is a source) ascending from [source_min]. *)
Definition bus_assignments (source : option ptr) (src : option t_pin_def)
    (target : ptr) (tgt : t_pin_def) (tristated : bool) (tri_control : option ptr)
    (tri_control_index constant : Z) (invert : bool) : list t_assign :=
  map (fun j : nat =>
         mk_assign source
           (match src with
            | Some src => Z.min (pin_left src) (pin_right src) + Z.of_nat j
            | None => 0
            end)
           target (Z.min (pin_left tgt) (pin_right tgt) + Z.of_nat j)
           tristated tri_control tri_control_index constant invert)
      (seq 0 (Z.to_nat (Z.max (pin_left tgt) (pin_right tgt) + 1
                        - Z.min (pin_left tgt) (pin_right tgt)))).

#[global] Instance bounds_fit_dec pin : Decision (bounds_fit pin).
Proof. unfold bounds_fit. apply _. Defined.
#[global] Instance bounds_fit_if_any_dec pin : Decision (bounds_fit_if_any pin).
Proof. unfold bounds_fit_if_any. destruct pin; apply _. Defined.
#[global] Instance scalar_dec pin : Decision (scalar pin).
Proof. unfold scalar. apply _. Defined.
#[global] Instance in_window_dec pin i : Decision (in_window pin i).
Proof. unfold in_window. apply _. Defined.
#[global] Instance source_ok_dec src i : Decision (source_ok src i).
Proof. unfold source_ok. destruct src; apply _. Defined.
#[global] Instance control_ok_dec t ctl i : Decision (control_ok t ctl i).
Proof. unfold control_ok. destruct ctl; apply _. Defined.
#[global] Instance single_bit_dec tgt i : Decision (single_bit tgt i).
Proof. unfold single_bit. apply _. Defined.
#[global] Instance narrower_dec src tgt : Decision (narrower src tgt).
Proof. unfold narrower. destruct src; apply _. Defined.

(** ** Example states *)

Definition net_a : t_pin_def := mk_pin "a" 3 0 PIN_WIRE true.
Definition net_b : t_pin_def := mk_pin "b" 2 0 PIN_WIRE true.
Definition net_c : t_pin_def := mk_pin "c" 0 0 PIN_WIRE false.

(** The state after [wire [3:0] a; wire [2:0] b; wire c;]: the three pins
    are at addresses 0, 1 and 2. *)
Definition state_abc : state :=
  mk_state [Some net_a; Some net_b; Some net_c] [] None None None
    (Some [0; 1; 2]%nat) None 1 [].

(** [state_abc] followed by [create_pins_from_list] for a declaration with
    the explicit range [[0:0]], which sets the [indexed] flag of a scalar:
    the pin [d] is at address 3. *)
Definition net_d : t_pin_def := mk_pin "d" 0 0 PIN_WIRE true.
Definition state_abcd : state :=
  mk_state [Some net_a; Some net_b; Some net_c; Some net_d] [] None None None
    (Some [0; 1; 2; 3]%nat) None 1 [].

(** [state_abc] followed by [create_pins_from_list] with the range [[3:0]]
    and the [indexed] flag clear: the pin [e] is at address 3. *)
Definition net_e : t_pin_def := mk_pin "e" 3 0 PIN_WIRE false.
Definition state_abce : state :=
  mk_state [Some net_a; Some net_b; Some net_c; Some net_e] [] None None None
    (Some [0; 1; 2; 3]%nat) None 1 [].

Definition net_w : t_pin_def := mk_pin "w" 1 0 PIN_WIRE true.

(** The state after [wire [1:0] w;]: the pin is at address 0. *)
Definition state_w : state :=
  mk_state [Some net_w] [] None None None (Some [0%nat]) None 1 [].

(** ** Port binding *)

(** The positions of a flattened sequence that hold an identifier (the
    others hold the [NULL] of a stub), counted from [k]. *)
Fixpoint positions_from {A} (k : nat) (l : list (option A)) : list nat :=
  match l with
  | [] => []
  | None :: rest => positions_from (S k) rest
  | Some _ :: rest => k :: positions_from (S k) rest
  end.




(** ** The ordered net index *)

(** [strcmp (a, b) < 0]: lexicographic order on the bytes. *)
Definition str_lt (a b : string) : Prop := strcmp a b = Lt.

(** The names of the pins an array of pin pointers refers to; every pointer
    must be live. *)
Definition names_of (store : list (option t_pin_def)) (net_list : list ptr)
    (names : list string) : Prop :=
  Forall2 (fun p n => exists pin, store !! p = Some (Some pin) /\ pin_name pin = n)
    net_list names.

(** The index exists, its pointers are live and their names are strictly
    ascending. *)
Definition sorted_index (st : state) (net_list : list ptr) (names : list string) : Prop :=
  pin_list st = Some net_list
  /\ names_of (pin_store st) net_list names
  /\ StronglySorted str_lt names.

(** Bookkeeping of the binary search: every name before position [k] sorts
    before [name]; every name after position [k] sorts after [name]; and
    the position the loop stopped on holds [name] itself or is next to where
    [name] belongs. *)
Definition below (names : list string) (name : string) (k : Z) : Prop :=
  forall (i : nat) (n : string),
    Z.of_nat i < k -> names !! i = Some n -> str_lt n name.

Definition above (names : list string) (name : string) (k : Z) : Prop :=
  forall (i : nat) (n : string),
    k < Z.of_nat i -> names !! i = Some n -> str_lt name n.

Definition probe_ok (names : list string) (name : string) (index : Z) : Prop :=
  exists (i : nat) (n : string),
    index = Z.of_nat i /\ names !! i = Some n
    /\ (n = name
        \/ (str_lt n name /\ above names name index)
        \/ (str_lt name n /\ below names name index)).

(** The index of a state, read as the empty sequence while [pin_list] is
    [NULL], refers to live pins whose names are [names], strictly ascending. *)
Definition index_ok (st : state) (names : list string) : Prop :=
  names_of (pin_store st) (default [] (pin_list st)) names
  /\ StronglySorted str_lt names.

(** The state [add_pin] leaves when the name is already declared: the new
    block has been freed and a warning printed. *)
Definition after_duplicate (name : string) (st : state) : state :=
  mk_state (pin_store st ++ [None]) (node_store st) (module_list st)
    (assignment_list st) (node_list st) (Some (default [] (pin_list st)))
    (most_recently_used_node st) (yylineno st)
    (console st ++ [Warning_duplicate_net name (yylineno st)]).

(** The state [add_pin] leaves when the name is new: the new block is at the
    end of the store and its address is spliced into the index at [i]. *)
Definition after_insert (name : string) (left right : Z) (type : t_pin_def_type)
    (i : nat) (st : state) : state :=
  let net_list := default [] (pin_list st) in
  mk_state (pin_store st ++ [Some (mk_pin name left right type (negb (left =? right)))])
    (node_store st) (module_list st) (assignment_list st) (node_list st)
    (Some (take i net_list ++ length (pin_store st) :: drop i net_list))
    (most_recently_used_node st) (yylineno st) (console st).

(** A sequence of net declarations, each one a call of [add_pin]. *)
Definition declaration : Type := string * Z * Z * t_pin_def_type.

Definition declared_name (d : declaration) : string :=
  let '(name, _, _, _) := d in name.

Fixpoint declare_all (decls : list declaration) (st : state) : result state :=
  match decls with
  | [] => Ok st
  | (name, left_bound, right_bound, type) :: rest =>
      let* (_, st) := add_pin name left_bound right_bound type st in
      declare_all rest st
  end.

(** What a lookup must answer on the index [net_list]: the one pin of the
    index that bears the name, or [NULL] when no pin of the index does. *)
Definition lookup_answer (st : state) (net_list : list ptr) (name : string)
    (r : option ptr) : Prop :=
  match r with
  | Some p =>
      p ∈ net_list
      /\ (exists pin, pin_store st !! p = Some (Some pin) /\ pin_name pin = name)
      /\ (forall q pin, q ∈ net_list -> pin_store st !! q = Some (Some pin) ->
                        pin_name pin = name -> q = p)
  | None =>
      forall q pin, q ∈ net_list -> pin_store st !! q = Some (Some pin) ->
                    pin_name pin <> name
  end.


(** ** More array functions *)

(** [array[index] = x] with a C [int] index. *)
Definition store_element {A} (array : list A) (index : Z) (x : A) : result (list A) :=
  if index <? 0 then Fault
  else if index <? Z.of_nat (length array) then Ok (<[Z.to_nat index := x]> array)
  else Fault.

(** [for (index = element_index; index < element_count - 1; index++)
       array[index] = array[index+1];]
    with [k] the number of iterations left. *)
Fixpoint copy_down {A} (k : nat) (index : Z) (array : list A) : result (list A) :=
  match k with
  | O => Ok array
  | S k' =>
      let* x := element array (index + 1) in
      let* array := store_element array index x in
      copy_down k' (index + 1) array
  end.

(** [remove_element_by_index]: the list is the [element_count] elements of
    the array; the result is the [element_count - 1] elements the caller
    keeps. *)
Definition remove_element_by_index {A} (element_index : Z) (array : list A)
    (preserve_order : bool) : result (list A) :=
  let element_count := Z.of_nat (length array) in
  assert (0 <? element_count)
    (let* array :=
       if preserve_order then
         if negb (element_count - 1 =? element_index) then
           copy_down (Z.to_nat (element_count - 1 - element_index)) element_index array
         else Ok array
       else
         if (1 <? element_count) && (element_index <? element_count - 1) then
           let* last := element array (element_count - 1) in
           store_element array element_index last
         else Ok array in
     Ok (take (Z.to_nat (element_count - 1)) array)).

(** [for (index = 0; index < element_count; index++)
       if (array[index] == element) break;]
    on the elements from [index] on; the result is the final [index]. *)
Fixpoint search_element (elem : Z) (array : list Z) (index : Z) : Z :=
  match array with
  | [] => index
  | x :: rest =>
      if x =? elem then index else search_element elem rest (index + 1)
  end.

Definition get_element_index (elem : Z) (array : list Z) : result Z :=
  let element_count := Z.of_nat (length array) in
  assert (0 <? element_count)
    (let index := search_element elem array 0 in
     if element_count <=? index then Ok (-1) else Ok index).

Fixpoint is_element_in_array (elem : Z) (array : list Z) : bool :=
  match array with
  | [] => false
  | x :: rest => if x =? elem then true else is_element_in_array elem rest
  end.

Definition remove_element_by_content (element_content : Z) (array : list Z)
    (preserve_order : bool) : result (list Z) :=
  let element_count := Z.of_nat (length array) in
  if 0 <? element_count then
    let* index := get_element_index element_content array in
    if 0 <=? index then remove_element_by_index index array preserve_order
    else Ok array
  else Ok [].

(** The block size (in elements) [append_array_element] asks [realloc] for
    when the array holds [element_count] elements: [reallocate_array] applies
    [calculate_array_size_using_bounds] to a count that already went through
    it.  [None] when the block is kept as it is. *)
Definition append_array_element_capacity (element_count : Z) : result (option Z) :=
  assert (0 <=? element_count)
    (let* new_element_count := calculate_array_size_using_bounds (element_count + 1) in
     if element_count <? new_element_count then
       let* array_size := calculate_array_size_using_bounds new_element_count in
       Ok (Some array_size)
     else Ok None).

(** ** Node lookup and instance parameters *)

(** [p->field] on a node pointer. *)
Definition deref_node (store : list t_node) (p : ptr) : result t_node :=
  match store !! p with
  | Some node => Ok node
  | None => Fault
  end.

(** The linear search of [locate_node_by_name] over the entries from the
    current one on. *)
Fixpoint scan_nodes (store : list t_node) (name : string) (nodes : list ptr)
  : result (option ptr) :=
  match nodes with
  | [] => Ok None
  | temp_node :: rest =>
      let* node := deref_node store temp_node in
      if strcmp (node_name node) name is Eq then Ok (Some temp_node)
      else scan_nodes store name rest
  end.

(** [locate_node_by_name] reads [node_list->array_size] without a check. *)
Definition locate_node_by_name (name : string) (st : state) : result (option ptr) :=
  match node_list st with
  | None => Fault
  | Some nodes => scan_nodes (node_store st) name nodes
  end.

(** [sprintf (index, "[%i]", identifier->index)] *)
Definition format_index (index : Z) : string :=
  ("[" ++ NilZero.string_of_int (Z.to_int index) ++ "]")%string.

Definition add_parameter (param : t_node_parameter) (node : t_node) : t_node :=
  mk_node (node_type node) (node_name node)
    (append_array_element param (array_of_params node)) (array_of_ports node).

Definition define_instance_parameter (identifier : t_identifier_pass)
    (parameter_name : string) (string_arg : option string) (integer_arg : Z)
    (st : state) : result state :=
  let index := if ident_indexed identifier
               then format_index (ident_index identifier) else ""%string in
  let name := (ident_name identifier ++ index)%string in
  match most_recently_used_node st with
  | None => AssertFail
  | Some recent =>
      let* recent_node := deref_node (node_store st) recent in
      let* (local_node, st) :=
        if strcmp name (node_name recent_node) is Eq then Ok (Some recent, st)
        else
          let* found := locate_node_by_name name st in
          Ok (found, set_most_recently_used_node found st) in
      match local_node with
      | None => AssertFail
      | Some local_node =>
          let param :=
            mk_param parameter_name
              (match string_arg with
               | None => integer_value integer_arg
               | Some s => string_value s
               end) in
          let* _ := deref_node (node_store st) local_node in
          Ok (set_node_store (fun s => alter (add_parameter param) local_node s) st)
      end
  end.

(** An association [add_node] leaves alone: its net is live and it is not
    a whole multi-bit bus (port index -1 with a wire index below the net's
    range). *)
Definition explicit_association (store : list (option t_pin_def))
    (a : t_node_port_association) : Prop :=
  exists net, store !! associated_net a = Some (Some net)
    /\ (pin_left net = pin_right net \/ port_index a <> -1
        \/ Z.min (pin_left net) (pin_right net) <= wire_index a).

(** Every pointer of the node list is a live node. *)
Definition nodes_live (st : state) : Prop :=
  Forall (fun p => is_Some (node_store st !! p)) (default [] (node_list st)).

(** Some node of the list bears the name. *)
Definition node_named (st : state) (nodes : list ptr) (name : string) : Prop :=
  exists q node, q ∈ nodes /\ node_store st !! q = Some node /\ node_name node = name.

(** No two nodes of the list bear the same name. *)
Definition unique_node_names (st : state) (nodes : list ptr) : Prop :=
  forall p q np nq,
    p ∈ nodes -> q ∈ nodes ->
    node_store st !! p = Some np -> node_store st !! q = Some nq ->
    node_name np = node_name nq -> p = q.

(** The name [define_instance_parameter] builds from an identifier. *)
Definition instance_name (identifier : t_identifier_pass) : string :=
  (ident_name identifier ++
   (if ident_indexed identifier then format_index (ident_index identifier) else ""))%string.

Definition parameter_of (parameter_name : string) (string_arg : option string)
    (integer_arg : Z) : t_node_parameter :=
  mk_param parameter_name
    (match string_arg with
     | None => integer_value integer_arg
     | Some s => string_value s
     end).

(** ** Vocabulary for concatenation assignments *)

(** Bit [j] of a walk that starts at [start] and goes down or up. *)
Definition bit_at (down : bool) (start : Z) (j : nat) : Z :=
  if down then start - Z.of_nat j else start + Z.of_nat j.

(** The [j]-th assignment of a concatenation of the net [src] (at [pin]) into
    the net [tgt] (at [target_pin]): both nets are walked from their [left]
    toward their [right]; a scalar source is recorded with its whole-net
    sentinel. *)
Definition concatenated (pin : ptr) (src : t_pin_def) (target_pin : ptr)
    (tgt : t_pin_def) (invert : bool) (j : nat) : t_assign :=
  mk_assign (Some pin)
    (if decide (scalar src) then whole_net src
     else bit_at (pin_right src <? pin_left src) (pin_left src) j)
    target_pin (bit_at (pin_right tgt <? pin_left tgt) (pin_left tgt) j)
    false None 0 (-1) invert.

(** ** Deciding the order of names *)

#[global] Instance str_lt_dec (a b : string) : Decision (str_lt a b).
Proof.
  unfold str_lt. destruct (strcmp a b); [right|left|right]; (done || discriminate).
Defined.

(** * Properties *)

(** ** Growth policy of the arrays *)

Lemma capacity_table :
  forallb capacity_table_ok (map Z.of_nat (seq 5 124)) = true.
Proof. vm_compute. reflexivity. Qed.

Lemma capacity_mid (n : Z) :
  4 < n <= 128 ->
  calculate_array_size_using_bounds n = Ok (4 * 2 ^ Z.log2 n).
Proof.
  intros Hn.
  pose proof capacity_table as Ht.
  rewrite forallb_forall in Ht.
  specialize (Ht n).
  assert (Hin : In n (map Z.of_nat (seq 5 124))).
  { apply in_map_iff. exists (Z.to_nat n). split; [lia|].
    apply in_seq. lia. }
  specialize (Ht Hin). unfold capacity_table_ok in Ht.
  destruct (calculate_array_size_using_bounds n); try discriminate.
  apply Z.eqb_eq in Ht. by subst.
Qed.

Lemma capacity_small (n : Z) :
  0 <= n <= 4 -> calculate_array_size_using_bounds n = Ok 4.
Proof.
  intros Hn. unfold calculate_array_size_using_bounds, assert, MINIMUM_ARRAY_SIZE.
  destruct (Z.leb_spec 0 n); [|lia].
  destruct (Z.leb_spec n 4); [done|lia].
Qed.

Lemma capacity_large (n : Z) :
  128 < n <= INT_MAX - 128 ->
  calculate_array_size_using_bounds n = Ok (128 * (n / 128 + 1)).
Proof.
  intros Hn. unfold INT_MAX in Hn.
  unfold calculate_array_size_using_bounds, assert,
    MINIMUM_ARRAY_SIZE, UPPER_GROWTH_BOUND, INT_MAX.
  destruct (Z.leb_spec 0 n); [|lia].
  destruct (Z.leb_spec n 4); [lia|].
  destruct (Z.ltb_spec 128 n); [|lia].
  rewrite Z.quot_div_nonneg by lia.
  pose proof (Z.mul_div_le n 128 ltac:(lia)).
  destruct (Z.leb_spec (128 * (n / 128 + 1)) 2147483647); [done|lia].
Qed.

(** C2 (as amended).  For an element count [n] with [0 <= n <= INT_MAX - 128]
    the computed capacity is: 4 when [n <= 4]; four times the largest power of
    two not exceeding [n] (a power of two, larger than [2 * n]) when
    [4 < n <= 128]; and the smallest multiple of 128 strictly greater than
    [n] when [n > 128]. *)
Theorem capacity_policy (n : Z) :
  0 <= n <= INT_MAX - 128 ->
  exists c, calculate_array_size_using_bounds n = Ok c /\
    (n <= 4 -> c = 4) /\
    (4 < n <= 128 -> c = 2 ^ (Z.log2 n + 2) /\ is_pow2 c /\ 2 * n < c <= 4 * n) /\
    (128 < n -> is_least (fun c => (128 | c) /\ n < c) c).
Proof.
  intros Hn.
  destruct (Z.le_gt_cases n 4) as [H4|H4].
  { exists 4. split; [apply capacity_small; lia|]. repeat split; lia. }
  destruct (Z.le_gt_cases n 128) as [H128|H128].
  - exists (4 * 2 ^ Z.log2 n). split; [apply capacity_mid; lia|].
    split; [lia|]. split; [|lia]. intros _.
    pose proof (Z.log2_nonneg n) as Hl.
    pose proof (Z.log2_spec n ltac:(lia)) as [Hlo Hhi].
    rewrite Z.pow_succ_r in Hhi by lia.
    assert (He : 2 ^ (Z.log2 n + 2) = 4 * 2 ^ Z.log2 n).
    { rewrite Z.pow_add_r by lia. lia. }
    rewrite He. repeat split; try lia.
    exists (Z.log2 n + 2). split; lia.
  - exists (128 * (n / 128 + 1)). split; [apply capacity_large; lia|].
    split; [lia|]. split; [lia|]. intros _.
    pose proof (Z.mul_div_le n 128 ltac:(lia)).
    pose proof (Z.mul_succ_div_gt n 128 ltac:(lia)).
    split.
    + split; [by apply Z.divide_factor_l | lia].
    + intros c' [[q Hq] Hlt]. subst c'.
      assert (n / 128 < q) by (apply Z.div_lt_upper_bound; lia).
      lia.
Qed.

Lemma capacity_policy_witness :
  0 <= 100 <= INT_MAX - 128 /\
  exists c, calculate_array_size_using_bounds 100 = Ok c /\
    (100 <= 4 -> c = 4) /\
    (4 < 100 <= 128 -> c = 2 ^ (Z.log2 100 + 2) /\ is_pow2 c /\ 2 * 100 < c <= 4 * 100) /\
    (128 < 100 -> is_least (fun c => (128 | c) /\ 100 < c) c).
Proof.
  assert (H : 0 <= 100 <= INT_MAX - 128) by (unfold INT_MAX; lia).
  split; [exact H | exact (capacity_policy 100 H)].
Defined.

(** C2 (as stated) fails: for 5 elements the capacity is 16 although 8 is a
    power of two that is at least max(4, 5); for 256 elements it is 384
    although 256 is a multiple of 128 that is at least 256. *)
Lemma capacity_not_smallest :
  (exists c, calculate_array_size_using_bounds 5 = Ok c /\ ~ claimed_capacity 5 c) /\
  (exists c, calculate_array_size_using_bounds 256 = Ok c /\ ~ claimed_capacity 256 c).
Proof.
  split.
  - exists 16. split; [reflexivity|].
    intros [H _]. destruct (H ltac:(lia)) as [_ Hmin].
    specialize (Hmin 8). cut (16 <= 8); [lia|]. apply Hmin.
    split; [exists 3; split; [lia|reflexivity] | lia].
  - exists 384. split; [reflexivity|].
    intros [_ H]. destruct (H ltac:(lia)) as [_ Hmin].
    specialize (Hmin 256). cut (384 <= 256); [lia|]. apply Hmin.
    split; [exists 2; reflexivity | lia].
Qed.

(** ** Assignments: what [add_assignment] checks and emits *)

Lemma pin_bounds_min_max (pin : t_pin_def) :
  pin_bounds pin = (Z.min (pin_left pin) (pin_right pin),
                    Z.max (pin_left pin) (pin_right pin)).
Proof.
  unfold pin_bounds. destruct (Z.ltb_spec (pin_left pin) (pin_right pin)).
  - rewrite Z.min_l, Z.max_r by lia. done.
  - rewrite Z.min_r, Z.max_l by lia. done.
Qed.

Lemma deref_pin_live store p pin :
  store !! p = Some (Some pin) -> deref_pin store p = Ok pin.
Proof. intros H. unfold deref_pin. by rewrite H. Qed.

Lemma as_int_ok (z : Z) : INT_MIN <= z <= INT_MAX -> as_int z = Ok z.
Proof.
  intros H. unfold as_int.
  destruct (Z.leb_spec INT_MIN z), (Z.leb_spec z INT_MAX); (done || lia).
Qed.

Lemma as_int_inv (z v : Z) : as_int z = Ok v -> v = z /\ INT_MIN <= z <= INT_MAX.
Proof.
  unfold as_int.
  destruct (Z.leb_spec INT_MIN z), (Z.leb_spec z INT_MAX); cbn; intros [=]; done.
Qed.

Lemma expand_bus_app (k : nat) source target tristated tri_control
    tri_control_index constant invert :
  forall wire_index source_index assignments,
    INT_MIN <= wire_index -> wire_index + Z.of_nat k <= INT_MAX ->
    (source <> None ->
     INT_MIN <= source_index /\ source_index + Z.of_nat k <= INT_MAX) ->
    expand_bus k wire_index source_index source target tristated tri_control
      tri_control_index constant invert assignments =
    Ok (assignments ++
        map (fun j : nat =>
               mk_assign source
                 (if source is Some _ then source_index + Z.of_nat j else 0)
                 target (wire_index + Z.of_nat j) tristated tri_control
                 tri_control_index constant invert)
          (seq 0 k)).
Proof.
  induction k as [|k IH]; intros wire_index source_index assignments Hlo Hhi Hsrc.
  - simpl. by rewrite app_nil_r.
  - cbn [expand_bus seq map].
    assert (Hstep : (if source is Some _ then as_int (source_index + 1)
                     else Ok source_index)
                    = Ok (if source is Some _ then source_index + 1
                          else source_index)).
    { destruct source; [|done]. apply as_int_ok.
      destruct Hsrc; [done|]. lia. }
    rewrite Hstep. cbn [rbind]. rewrite as_int_ok by lia. cbn [rbind].
    rewrite IH; [|lia|lia|].
    + unfold append_array_element. rewrite <- app_assoc. do 2 f_equal. cbn [app].
      f_equal.
      * destruct source; f_equal; lia.
      * rewrite <- seq_shift, map_map. apply map_ext. intros j.
        destruct source; f_equal; lia.
    + intros Hs. destruct (Hsrc Hs). destruct source; [lia|done].
Qed.

(** One step of symbolic execution of [add_assignment]: reduce, read a live
    pin, or split on a comparison the code makes. *)
Ltac exec_step :=
  first
    [ progress cbn [rbind assert non_null negb orb andb default points_to] in *
    | rewrite pin_bounds_min_max
    | rewrite as_int_ok by (unfold INT_MIN, INT_MAX in *; lia)
    | match goal with
      | H : ?s !! ?p = Some (Some ?pin) |- context [deref_pin ?s ?p] =>
          rewrite (deref_pin_live s p pin H)
      end
    | match goal with
      | |- context [Z.eqb ?a ?b] => destruct (Z.eqb_spec a b)
      | |- context [Z.leb ?a ?b] => destruct (Z.leb_spec a b)
      | |- context [Z.ltb ?a ?b] => destruct (Z.ltb_spec a b)
      end ].

Ltac unfold_assignment_vocabulary :=
  unfold source_ok, control_ok, single_bit, narrower, recorded_source_index,
    recorded_target_index, in_window, whole_net, width, scalar,
    bounds_fit_if_any, bounds_fit in *.

Ltac exec_add_assignment :=
  unfold add_assignment;
  repeat match goal with
    | p : option ptr, q : option t_pin_def |- _ =>
        match goal with
        | H : points_to _ p q |- _ => destruct p, q; try (exfalso; exact H)
        end
    end;
  unfold_assignment_vocabulary;
  repeat exec_step.

Section AddAssignment.

Context (st : state) (source : option ptr) (src : option t_pin_def)
  (target : ptr) (tgt : t_pin_def)
  (tri_control : option ptr) (ctl : option t_pin_def).
Context (Hsrc : points_to (pin_store st) source src)
  (Htgt : pin_store st !! target = Some (Some tgt))
  (Hctl : points_to (pin_store st) tri_control ctl).
Context (Hsrc_fit : bounds_fit_if_any src) (Htgt_fit : bounds_fit tgt)
  (Hctl_fit : bounds_fit_if_any ctl).

Lemma add_assignment_fatal source_index target_index tristated tri_control_index
    constant invert :
  ~ in_window tgt target_index \/ ~ source_ok src source_index
  \/ ~ control_ok tristated ctl tri_control_index ->
  add_assignment source source_index (Some target) target_index tristated
    tri_control tri_control_index constant invert st = AssertFail.
Proof using Hsrc Htgt Hctl Hsrc_fit Htgt_fit Hctl_fit.
  intros Hbad. destruct tristated.
  all: exec_add_assignment; try reflexivity; exfalso; intuition (congruence || lia).
Qed.

Lemma add_assignment_single source_index target_index tristated tri_control_index
    constant invert :
  in_window tgt target_index -> source_ok src source_index ->
  control_ok tristated ctl tri_control_index ->
  single_bit tgt target_index ->
  add_assignment source source_index (Some target) target_index tristated
    tri_control tri_control_index constant invert st =
  Ok (set_assignment_list
        (Some (default [] (assignment_list st) ++
               [mk_assign source (recorded_source_index src source_index) target
                  (recorded_target_index tgt target_index) tristated tri_control
                  tri_control_index constant invert])) st).
Proof using Hsrc Htgt Hctl Hsrc_fit Htgt_fit Hctl_fit.
  intros Hw Hs Hc Hone. destruct tristated, (pin_indexed tgt) eqn:Hix.
  all: exec_add_assignment; rewrite ?Hix; cbn [negb orb];
    repeat case_decide; try reflexivity; exfalso; intuition (congruence || lia).
Qed.

Lemma add_assignment_narrow source_index target_index tristated tri_control_index
    constant invert :
  in_window tgt target_index -> source_ok src source_index ->
  control_ok tristated ctl tri_control_index ->
  ~ single_bit tgt target_index -> narrower src tgt ->
  add_assignment source source_index (Some target) target_index tristated
    tri_control tri_control_index constant invert st = AssertFail.
Proof using Hsrc Htgt Hctl Hsrc_fit Htgt_fit Hctl_fit.
  intros Hw Hs Hc Hone Hn. destruct tristated, (pin_indexed tgt) eqn:Hix.
  all: exec_add_assignment; rewrite ?Hix; cbn [negb orb];
    try reflexivity; exfalso; intuition (congruence || lia).
Qed.

Lemma add_assignment_bus source_index target_index tristated tri_control_index
    constant invert :
  in_window tgt target_index -> source_ok src source_index ->
  control_ok tristated ctl tri_control_index ->
  ~ single_bit tgt target_index -> ~ narrower src tgt ->
  add_assignment source source_index (Some target) target_index tristated
    tri_control tri_control_index constant invert st =
  Ok (set_assignment_list
        (Some (default [] (assignment_list st) ++
               bus_assignments source src target tgt tristated tri_control
                 tri_control_index constant invert)) st).
Proof using Hsrc Htgt Hctl Hsrc_fit Htgt_fit Hctl_fit.
  intros Hw Hs Hc Hone Hn. unfold bus_assignments.
  destruct tristated, (pin_indexed tgt) eqn:Hix.
  all: exec_add_assignment; rewrite ?Hix; cbn [negb orb];
    try (exfalso; intuition (congruence || lia)).
  all: rewrite expand_bus_app;
    [reflexivity
    | unfold INT_MIN, INT_MAX in *; lia
    | unfold INT_MIN, INT_MAX in *; lia
    | intros ?; first [done | unfold INT_MIN, INT_MAX in *; lia]].
Qed.

End AddAssignment.

(** The example states are what the declarations leave. *)

Lemma state_abc_built :
  (let* (a, st) := add_pin "a" 3 0 PIN_WIRE initial_state in
   let* (b, st) := add_pin "b" 2 0 PIN_WIRE st in
   let* (c, st) := add_pin "c" 0 0 PIN_WIRE st in
   Ok (a, b, c, st)) = Ok (0%nat, 1%nat, 2%nat, state_abc).
Proof. reflexivity. Qed.

Lemma state_abcd_built :
  create_pins_from_list [mk_ident "d" false 0] 0 0 PIN_WIRE true state_abc
  = Ok state_abcd.
Proof. reflexivity. Qed.

Lemma state_abce_built :
  create_pins_from_list [mk_ident "e" false 0] 3 0 PIN_WIRE false state_abc
  = Ok state_abce.
Proof. reflexivity. Qed.

(** C4 (as amended).  Once its index checks pass, [add_assignment] emits
    exactly one Assignment when the target is scalar (whichever in-window
    index is supplied), when an explicit non-whole index is supplied for a
    multi-bit target, or when the target's [indexed] flag is clear; otherwise
    (a multi-bit target with the [indexed] flag set, driven as a whole) it
    emits one Assignment per target bit, target bits ascending from
    [target_min] to [target_max], paired (when there is a source) with source
    bits ascending from [source_min], with the tristate, constant and invert
    attributes on every record, and it is fatal when the source is narrower
    than the target.  The bounds of the nets involved are taken to leave room
    for the [int] arithmetic [min - 1], [max + 1] and [max - min]. *)
Theorem add_assignment_emits (st : state) (source : option ptr)
    (src : option t_pin_def) (target : ptr) (tgt : t_pin_def)
    (tri_control : option ptr) (ctl : option t_pin_def)
    (source_index target_index : Z) (tristated : bool)
    (tri_control_index constant : Z) (invert : bool) :
  points_to (pin_store st) source src ->
  pin_store st !! target = Some (Some tgt) ->
  points_to (pin_store st) tri_control ctl ->
  bounds_fit_if_any src -> bounds_fit tgt -> bounds_fit_if_any ctl ->
  in_window tgt target_index ->
  source_ok src source_index ->
  control_ok tristated ctl tri_control_index ->
  let run := add_assignment source source_index (Some target) target_index
               tristated tri_control tri_control_index constant invert st in
  let emitted l := Ok (set_assignment_list
                         (Some (default [] (assignment_list st) ++ l)) st) in
  (single_bit tgt target_index ->
   run = emitted [mk_assign source (recorded_source_index src source_index) target
                    (recorded_target_index tgt target_index) tristated tri_control
                    tri_control_index constant invert])
  /\ (~ single_bit tgt target_index -> ~ narrower src tgt ->
      run = emitted (bus_assignments source src target tgt tristated tri_control
                       tri_control_index constant invert)
      /\ Z.of_nat (length (bus_assignments source src target tgt tristated
                             tri_control tri_control_index constant invert))
         = width tgt + 1)
  /\ (~ single_bit tgt target_index -> narrower src tgt -> run = AssertFail)
  /\ (scalar tgt -> exists a, run = emitted [a]).
Proof.
  intros Hsrc Htgt Hctl Hfs Hft Hfc Hw Hs Hc run emitted. subst run emitted. cbv beta.
  split; [|split; [|split]].
  - intros Hone. by eapply add_assignment_single.
  - intros Hone Hn. split; [by eapply add_assignment_bus|].
    unfold bus_assignments, width. rewrite length_map, length_seq. lia.
  - intros Hone Hn. by eapply add_assignment_narrow.
  - intros Hsc. destruct (decide (single_bit tgt target_index)) as [Hone|Hone].
    + eexists. by eapply add_assignment_single.
    + assert (Hn : ~ narrower src tgt).
      { unfold narrower, width, scalar in *. destruct src; lia. }
      erewrite add_assignment_bus by done.
      unfold bus_assignments. unfold scalar in Hsc. rewrite Hsc.
      rewrite Z.max_id, Z.min_id.
      replace (pin_right tgt + 1 - pin_right tgt) with 1 by lia.
      cbn [Z.to_nat Pos.to_nat Pos.iter_op seq map Nat.add]. eauto.
Qed.

Ltac by_computation := refine (bool_decide_unpack _ _); vm_compute; exact I.

Lemma add_assignment_emits_witness :
  bounds_fit net_a /\ bounds_fit net_b
  /\ in_window net_b (-1) /\ source_ok (Some net_a) (-1) /\ control_ok false None 0
  /\ ~ single_bit net_b (-1) /\ ~ narrower (Some net_a) net_b
  /\ add_assignment (Some 0%nat) (-1) (Some 1%nat) (-1) false None 0 (-1) true
       state_abc
     = Ok (set_assignment_list
             (Some [mk_assign (Some 0%nat) 0 1%nat 0 false None 0 (-1) true;
                    mk_assign (Some 0%nat) 1 1%nat 1 false None 0 (-1) true;
                    mk_assign (Some 0%nat) 2 1%nat 2 false None 0 (-1) true])
             state_abc).
Proof.
  assert (Hfa : bounds_fit net_a) by by_computation.
  assert (Hfb : bounds_fit net_b) by by_computation.
  assert (Hw : in_window net_b (-1)) by by_computation.
  assert (Hs : source_ok (Some net_a) (-1)) by by_computation.
  assert (Hc : control_ok false None 0) by by_computation.
  assert (Hone : ~ single_bit net_b (-1)) by by_computation.
  assert (Hn : ~ narrower (Some net_a) net_b) by by_computation.
  repeat (split; [assumption|]).
  exact (proj1 (proj1 (proj2 (add_assignment_emits state_abc (Some 0%nat) (Some net_a)
    1%nat net_b None None (-1) (-1) false 0 (-1) true eq_refl eq_refl I Hfa Hfb I
    Hw Hs Hc)) Hone Hn)).
Defined.

(** C4 (as stated) fails twice.  A scalar target does not yield an Assignment
    "regardless of any supplied index": the index is range-checked before the
    scalar case overrides it, so index 5 on the scalar [c] is fatal.  And a
    multi-bit target driven as a whole is not expanded when its [indexed]
    flag is clear: the 4-bit [e] gets a single whole-net Assignment. *)
Lemma add_assignment_scalar_target_out_of_window :
  add_assignment None 0 (Some 2%nat) 5 false None 0 1 false state_abc = AssertFail
  /\ add_assignment None 0 (Some 3%nat) (-1) false None 0 1 false state_abce
     = Ok (set_assignment_list
             (Some [mk_assign None 0 3%nat (-1) false None 0 1 false]) state_abce).
Proof. split; reflexivity. Qed.

(** C8 (as amended).  With live pins, [add_assignment] is fatal exactly when
    the target index is outside the target's window, or the source is a
    multi-bit net and the source index is outside its window, or the tristate
    flag is set and the control net is null or the control index is outside
    its window, or the bus branch finds the source narrower than the target;
    in every other case it completes normally.  The index of a scalar source
    and the control index of a non-tristate assignment are not checked.  A
    null target is fatal whatever the other arguments are.  The bounds of the
    nets involved are taken to leave room for the [int] arithmetic [min - 1],
    [max + 1] and [max - min]. *)
Theorem add_assignment_fatal_iff (st : state) (source : option ptr)
    (src : option t_pin_def) (target : ptr) (tgt : t_pin_def)
    (tri_control : option ptr) (ctl : option t_pin_def)
    (source_index target_index : Z) (tristated : bool)
    (tri_control_index constant : Z) (invert : bool) :
  points_to (pin_store st) source src ->
  pin_store st !! target = Some (Some tgt) ->
  points_to (pin_store st) tri_control ctl ->
  bounds_fit_if_any src -> bounds_fit tgt -> bounds_fit_if_any ctl ->
  let run := add_assignment source source_index (Some target) target_index
               tristated tri_control tri_control_index constant invert st in
  let fatal :=
    ~ in_window tgt target_index
    \/ ~ source_ok src source_index
    \/ ~ control_ok tristated ctl tri_control_index
    \/ (~ single_bit tgt target_index /\ narrower src tgt) in
  (fatal -> run = AssertFail) /\ (~ fatal -> exists st', run = Ok st')
  /\ add_assignment source source_index None target_index tristated tri_control
       tri_control_index constant invert st = AssertFail.
Proof.
  intros Hsrc Htgt Hctl Hfs Hft Hfc run fatal. subst run fatal. cbv beta.
  apply and_assoc. split; [|reflexivity].
  destruct (decide (in_window tgt target_index)) as [Hw|Hw];
    [|split; [intros _; eapply add_assignment_fatal; eauto | tauto]].
  destruct (decide (source_ok src source_index)) as [Hs|Hs];
    [|split; [intros _; eapply add_assignment_fatal; eauto | tauto]].
  destruct (decide (control_ok tristated ctl tri_control_index)) as [Hc|Hc];
    [|split; [intros _; eapply add_assignment_fatal; eauto | tauto]].
  destruct (decide (single_bit tgt target_index)) as [Hone|Hone].
  { split; [tauto|]. intros _. eexists. by eapply add_assignment_single. }
  destruct (decide (narrower src tgt)) as [Hn|Hn].
  - split; [|tauto]. intros _. by eapply add_assignment_narrow.
  - split; [tauto|]. intros _. eexists. by eapply add_assignment_bus.
Qed.

Lemma add_assignment_fatal_iff_witness :
  bounds_fit net_a /\ bounds_fit net_b /\ ~ source_ok (Some net_a) 9
  /\ add_assignment (Some 0%nat) 9 (Some 1%nat) 0 false None 0 (-1) false state_abc
     = AssertFail.
Proof.
  assert (Hfa : bounds_fit net_a) by by_computation.
  assert (Hfb : bounds_fit net_b) by by_computation.
  assert (Hs : ~ source_ok (Some net_a) 9) by by_computation.
  repeat (split; [assumption|]).
  exact (proj1 (add_assignment_fatal_iff state_abc (Some 0%nat) (Some net_a) 1%nat
    net_b None None 9 0 false 0 (-1) false eq_refl eq_refl I Hfa Hfb I)
    (or_intror (or_introl Hs))).
Defined.

(** C8 (as stated) fails in both directions.  Index 7 lies outside the window
    [[-1, 0]] of the scalar source [c], yet the call completes; and with every
    supplied index inside its window and no tristate, driving the 4-bit [a]
    as a whole from the scalar [c] is fatal. *)
Lemma add_assignment_unchecked_and_late_fatal :
  (~ in_window net_c 7
   /\ add_assignment (Some 2%nat) 7 (Some 0%nat) 0 false None 0 (-1) false state_abc
      = Ok (set_assignment_list
              (Some [mk_assign (Some 2%nat) (-1) 0%nat 0 false None 0 (-1) false])
              state_abc))
  /\ (in_window net_c (-1) /\ in_window net_a (-1)
      /\ add_assignment (Some 2%nat) (-1) (Some 0%nat) (-1) false None 0 (-1) false
           state_abc = AssertFail).
Proof.
  split; [split; [by_computation | reflexivity]|].
  split; [by_computation|]. split; [by_computation | reflexivity].
Qed.

(** C10 (as amended).  The bounds of the nets involved are taken to leave
    room for the [int] arithmetic [min - 1], [max + 1] and [max - min].
    When the source net is scalar and the target is not a scalar whose
    [indexed] flag is set, the supplied source index has no effect at all on
    the call, and a call that completes emits exactly one Assignment, whose
    source index is the whole-net sentinel [min(left,right) - 1] and, for a
    scalar target, whose target index is the sentinel [left - 1]; the call
    completes whenever the target index is in its window, the control check
    passes and the single-assignment branch applies.  Symmetrically, whatever
    the source is (none, a scalar or a multi-bit net), a scalar target taken
    through the single-assignment path (its [indexed] flag is clear) is
    recorded with the sentinel target index [left - 1]: the supplied target
    index has no effect on the call as long as it is in the window, and the
    call completes whenever the source and control checks pass. *)
Theorem scalar_source_sentinel (st : state) (source : option ptr)
    (src : option t_pin_def) (target : ptr) (tgt : t_pin_def)
    (tri_control : option ptr) (ctl : option t_pin_def) (tristated : bool)
    (tri_control_index constant : Z) (invert : bool) :
  points_to (pin_store st) source src ->
  pin_store st !! target = Some (Some tgt) ->
  points_to (pin_store st) tri_control ctl ->
  bounds_fit_if_any src -> bounds_fit tgt -> bounds_fit_if_any ctl ->
  let run i t :=
    add_assignment source i (Some target) t tristated tri_control
      tri_control_index constant invert st in
  (forall s0, src = Some s0 -> scalar s0 ->
     ~ (scalar tgt /\ pin_indexed tgt = true) ->
     (forall t i j, run i t = run j t)
     /\ (forall t i st', run i t = Ok st' ->
         exists a, assignment_list st' = Some (default [] (assignment_list st) ++ [a])
                   /\ source_index a = whole_net s0
                   /\ (scalar tgt -> target_index a = pin_left tgt - 1))
     /\ (forall t i, in_window tgt t ->
         control_ok tristated ctl tri_control_index ->
         single_bit tgt t -> exists st', run i t = Ok st'))
  /\ (scalar tgt -> pin_indexed tgt = false ->
      (forall i t t', in_window tgt t -> in_window tgt t' -> run i t = run i t')
      /\ (forall i t st', run i t = Ok st' ->
          exists a, assignment_list st' = Some (default [] (assignment_list st) ++ [a])
                    /\ target_index a = pin_left tgt - 1)
      /\ (forall i t, in_window tgt t -> source_ok src i ->
          control_ok tristated ctl tri_control_index ->
          exists st', run i t = Ok st')).
Proof.
  intros Hsrc Htgt Hctl Hfs Hft Hfc run.
  assert (Hsingle : forall i t, in_window tgt t -> source_ok src i ->
            control_ok tristated ctl tri_control_index ->
            single_bit tgt t ->
            run i t = Ok (set_assignment_list
                            (Some (default [] (assignment_list st) ++
                                   [mk_assign source (recorded_source_index src i)
                                      target (recorded_target_index tgt t)
                                      tristated tri_control tri_control_index
                                      constant invert])) st)).
  { intros i t Hw Hs Hc Hone. unfold run. by eapply add_assignment_single. }
  assert (Hcheck : forall i t, ~ (in_window tgt t /\ source_ok src i
              /\ control_ok tristated ctl tri_control_index) ->
            run i t = AssertFail).
  { intros i t Hno. unfold run. eapply add_assignment_fatal; eauto.
    destruct (decide (in_window tgt t)); [|tauto].
    destruct (decide (source_ok src i)); [|tauto].
    destruct (decide (control_ok tristated ctl tri_control_index)); tauto. }
  assert (Hchecks : forall i t, (in_window tgt t /\ source_ok src i
              /\ control_ok tristated ctl tri_control_index)
            \/ ~ (in_window tgt t /\ source_ok src i
                  /\ control_ok tristated ctl tri_control_index)).
  { intros i t. destruct (decide (in_window tgt t));
      destruct (decide (source_ok src i));
      destruct (decide (control_ok tristated ctl tri_control_index)); tauto. }
  split.
  - intros s0 -> Hsc Hnot.
    assert (Hs : forall i, source_ok (Some s0) i) by (intros i; by left).
    assert (Hbus : forall i t, in_window tgt t ->
              control_ok tristated ctl tri_control_index ->
              ~ single_bit tgt t -> run i t = AssertFail).
    { intros i t Hw Hc Hone. unfold run.
      eapply add_assignment_narrow; eauto.
      unfold narrower, width, single_bit, scalar, whole_net in *.
      destruct (pin_indexed tgt); [|tauto]. lia. }
    assert (Hsame : forall i t,
              run i t = if decide (in_window tgt t
                                   /\ control_ok tristated ctl tri_control_index
                                   /\ single_bit tgt t)
                        then Ok (set_assignment_list
                                   (Some (default [] (assignment_list st) ++
                                          [mk_assign source (whole_net s0) target
                                             (recorded_target_index tgt t)
                                             tristated tri_control
                                             tri_control_index constant invert]))
                                   st)
                        else AssertFail).
    { intros i t. case_decide as Hall.
      - destruct Hall as (Hw & Hc & Hone). rewrite Hsingle by (done || apply Hs).
        unfold recorded_source_index. by rewrite decide_True.
      - destruct (Hchecks i t) as [(Hw & _ & Hc)|Hno]; [|by apply Hcheck].
        apply Hbus; tauto. }
    split; [|split].
    + intros t i j. by rewrite !Hsame.
    + intros t i st' Hrun. rewrite Hsame in Hrun. case_decide; [|discriminate].
      injection Hrun as <-. eexists. split; [reflexivity|]. split; [reflexivity|].
      intros Hst. cbn. unfold recorded_target_index. by rewrite decide_True.
    + intros t i Hw Hc Hone. rewrite Hsame, decide_True by done. eauto.
  - intros Hsc Hflag.
    assert (Hone : forall t, single_bit tgt t) by (intros t; by right).
    assert (Hsame : forall i t, in_window tgt t ->
              run i t = if decide (source_ok src i
                                   /\ control_ok tristated ctl tri_control_index)
                        then Ok (set_assignment_list
                                   (Some (default [] (assignment_list st) ++
                                          [mk_assign source
                                             (recorded_source_index src i) target
                                             (pin_left tgt - 1) tristated
                                             tri_control tri_control_index
                                             constant invert])) st)
                        else AssertFail).
    { intros i t Hw. case_decide as Hall.
      - destruct Hall as (Hs & Hc). rewrite Hsingle by done.
        unfold recorded_target_index. by rewrite decide_True.
      - apply Hcheck. tauto. }
    split; [|split].
    + intros i t t' Hw Hw'. by rewrite !Hsame.
    + intros i t st' Hrun. destruct (Hchecks i t) as [(Hw & Hs & Hc)|Hno].
      * rewrite Hsame, decide_True in Hrun by done. injection Hrun as <-.
        eexists. split; reflexivity.
      * rewrite Hcheck in Hrun by done. discriminate.
    + intros i t Hw Hs Hc. rewrite Hsame, decide_True by done. eauto.
Qed.

Lemma scalar_source_sentinel_witness :
  bounds_fit net_c /\ bounds_fit net_a
  /\ scalar net_c /\ ~ (scalar net_a /\ pin_indexed net_a = true)
  /\ forall i j,
       add_assignment (Some 2%nat) i (Some 0%nat) 0 false None 0 (-1) false state_abc
       = add_assignment (Some 2%nat) j (Some 0%nat) 0 false None 0 (-1) false state_abc.
Proof.
  assert (Hfc : bounds_fit net_c) by by_computation.
  assert (Hfa : bounds_fit net_a) by by_computation.
  assert (Hsc : scalar net_c) by reflexivity.
  assert (Hnot : ~ (scalar net_a /\ pin_indexed net_a = true)) by by_computation.
  repeat (split; [assumption|]).
  exact (proj1 (proj1 (scalar_source_sentinel state_abc (Some 2%nat) (Some net_c)
    0%nat net_a None None false 0 (-1) false eq_refl eq_refl I Hfc Hfa I)
    net_c eq_refl Hsc Hnot) 0).
Defined.

(** C10 (as stated) fails for a scalar target whose [indexed] flag is set
    (a net declared with the explicit range [[0:0]]): the call goes through
    the bus branch, which records [source_min] = 0 for the scalar source [c]
    instead of the sentinel -1. *)
Lemma scalar_source_bus_branch :
  scalar net_c /\ whole_net net_c = -1
  /\ add_assignment (Some 2%nat) (-1) (Some 3%nat) 0 false None 0 (-1) false
       state_abcd
     = Ok (set_assignment_list
             (Some [mk_assign (Some 2%nat) 0 3%nat 0 false None 0 (-1) false])
             state_abcd).
Proof. repeat split. Qed.

(** ** Modules *)

(** C9 (as amended).  [add_module], called on the three transient array
    references, appends exactly one new Module wrapping the current net,
    assignment and node sequences at the end of the finished-module list and
    leaves the Ordered Net Index, the Assignment sequence and the Node
    sequence empty ([NULL]); the most-recently-used-node cache keeps the value
    it had, and nothing else changes. *)
Theorem finalize_module_resets_lists (name : string) (st : state) :
  let st' := finalize_module name st in
  module_list st' =
    Some (default [] (module_list st) ++
          [mk_module name (default [] (pin_list st))
             (default [] (assignment_list st)) (default [] (node_list st))])
  /\ pin_list st' = None /\ assignment_list st' = None /\ node_list st' = None
  /\ most_recently_used_node st' = most_recently_used_node st
  /\ pin_store st' = pin_store st /\ node_store st' = node_store st
  /\ snd (add_module name (pin_list st) (assignment_list st) (node_list st) st)
     = (None, None, None).
Proof. repeat split. Qed.

Lemma state_w_built : add_pin "w" 1 0 PIN_WIRE initial_state = Ok (0%nat, state_w).
Proof. reflexivity. Qed.

(** C9 (as stated) fails for the cache: after a node has been declared,
    finalizing the module leaves [most_recently_used_node] pointing at that
    node. *)
Lemma finalize_module_keeps_cache :
  exists st, add_node "lcell" "n1" (Some [mk_assoc "in" 0 0%nat 1]) state_w = Ok st
    /\ most_recently_used_node st = Some 0%nat
    /\ most_recently_used_node (finalize_module "top" st) = Some 0%nat
    /\ most_recently_used_node (finalize_module "top" st) <> None.
Proof. eexists. repeat split. discriminate. Qed.

(** ** Concatenation assignments *)

(** C3.  After [a[3:0]], [b[2:0]] and [c] are declared, assigning [{b, c}] to
    [a] produces exactly the four Assignments a[3]=b[2], a[2]=b[1], a[1]=b[0],
    a[0]=c in that order (the scalar [c] is recorded with its whole-net
    sentinel -1); a [NULL] entry only moves the target cursor one step in the
    target's direction, and emits nothing. *)
Theorem concatenation_b_c_to_a :
  (let* (a, st) := add_pin "a" 3 0 PIN_WIRE initial_state in
   let* (b, st) := add_pin "b" 2 0 PIN_WIRE st in
   let* (c, st) := add_pin "c" 0 0 PIN_WIRE st in
   let* st := add_concatenation_assignments
                [Some (mk_ident "b" false 0); Some (mk_ident "c" false 0)]
                (Some a) false st in
   Ok (a, b, c, assignment_list st))
  = Ok (0%nat, 1%nat, 2%nat,
        Some [mk_assign (Some 1%nat) 2 0%nat 3 false None 0 (-1) false;
              mk_assign (Some 1%nat) 1 0%nat 2 false None 0 (-1) false;
              mk_assign (Some 1%nat) 0 0%nat 1 false None 0 (-1) false;
              mk_assign (Some 2%nat) (-1) 0%nat 0 false None 0 (-1) false])
  /\ (forall rest target_pin target_down cursor invert_wire st,
        concatenation_loop (None :: rest) target_pin target_down cursor invert_wire st
        = concatenation_loop rest target_pin target_down
            (if target_down then cursor - 1 else cursor + 1) invert_wire st)
  /\ (let* st := add_concatenation_assignments
                   [None; Some (mk_ident "b" false 0)] (Some 0%nat) false state_abc in
      Ok (assignment_list st))
     = Ok (Some [mk_assign (Some 1%nat) 2 0%nat 2 false None 0 (-1) false;
                 mk_assign (Some 1%nat) 1 0%nat 1 false None 0 (-1) false;
                 mk_assign (Some 1%nat) 0 0%nat 0 false None 0 (-1) false]).
Proof. repeat split. Qed.

(** ** Port binding: [create_wire_port_connections] *)

Lemma strcmp_eq (a b : string) : strcmp a b = Eq -> a = b.
Proof. apply String.compare_eq_iff. Qed.

Lemma deref_pin_inv store p pin :
  deref_pin store p = Ok pin -> store !! p = Some (Some pin).
Proof.
  unfold deref_pin. destruct (store !! p) as [[q|]|]; try discriminate.
  by intros [= ->].
Qed.

Lemma rbind_ok {A B} (r : result A) (k : A -> result B) (b : B) :
  rbind r k = Ok b -> exists a, r = Ok a /\ k a = Ok b.
Proof. destruct r; try discriminate. eauto. Qed.


Lemma elem_of_positions_from {A} (l : list (option A)) (k i : nat) :
  i ∈ positions_from k l <->
  (k <= i)%nat /\ exists x, l !! (i - k)%nat = Some (Some x).
Proof.
  revert k. induction l as [|[x|] l IH]; intros k; cbn [positions_from].
  - rewrite elem_of_nil. split; [done|]. intros [_ [x Hx]]. done.
  - rewrite elem_of_cons, IH. split.
    + intros [->|[Hk [y Hy]]].
      * split; [lia|]. exists x. by rewrite Nat.sub_diag.
      * split; [lia|]. exists y. by replace (i - k)%nat with (S (i - S k)) by lia.
    + intros [Hk [y Hy]]. destruct (decide (i = k)) as [->|Hne]; [by left|].
      right. split; [lia|]. exists y.
      by replace (i - k)%nat with (S (i - S k)) in Hy by lia.
  - rewrite IH. split.
    + intros [Hk [y Hy]]. split; [lia|]. exists y.
      by replace (i - k)%nat with (S (i - S k)) by lia.
    + intros [Hk [y Hy]]. destruct (decide (i = k)) as [->|Hne].
      { by rewrite Nat.sub_diag in Hy. }
      split; [lia|]. exists y.
      by replace (i - k)%nat with (S (i - S k)) in Hy by lia.
Qed.

Lemma identifiers_of_bus_app k name pin_index offset acc :
  identifiers_of_bus k name pin_index offset acc =
  acc ++ map (fun j : nat => Some (mk_ident name true (pin_index + Z.of_nat j * offset)))
           (seq 0 k).
Proof.
  revert pin_index acc. induction k as [|k IH]; intros pin_index acc.
  - cbn. by rewrite app_nil_r.
  - cbn [identifiers_of_bus seq map]. rewrite IH. unfold append_array_element.
    rewrite <- app_assoc. f_equal. cbn [app]. f_equal.
    + do 2 f_equal. lia.
    + rewrite <- seq_shift, map_map. apply map_ext. intros j. do 2 f_equal. lia.
Qed.






(** ** The order [strcmp] induces *)

Lemma ascii_compare_refl (c : ascii) : Ascii.compare c c = Eq.
Proof. unfold Ascii.compare. apply N.compare_refl. Qed.

Lemma ascii_compare_lt_trans (a b c : ascii) :
  Ascii.compare a b = Lt -> Ascii.compare b c = Lt -> Ascii.compare a c = Lt.
Proof. unfold Ascii.compare. rewrite !N.compare_lt_iff. lia. Qed.

Lemma strcmp_refl (a : string) : strcmp a a = Eq.
Proof.
  unfold strcmp. induction a as [|c a IH]; [done|].
  cbn. by rewrite ascii_compare_refl.
Qed.

Lemma strcmp_gt_lt (a b : string) : strcmp a b = Gt <-> str_lt b a.
Proof.
  unfold str_lt, strcmp. rewrite (String.compare_antisym b a).
  destruct (String.compare a b); cbn; split; congruence.
Qed.

Lemma str_lt_irrefl (a : string) : ~ str_lt a a.
Proof. unfold str_lt. by rewrite strcmp_refl. Qed.

Lemma str_lt_trans (a b c : string) : str_lt a b -> str_lt b c -> str_lt a c.
Proof.
  unfold str_lt, strcmp. revert b c.
  induction a as [|x a IH]; intros [|y b] [|z c]; cbn; try congruence.
  destruct (Ascii.compare x y) eqn:Hxy, (Ascii.compare y z) eqn:Hyz;
    try congruence.
  - apply Ascii.compare_eq_iff in Hxy, Hyz. subst. rewrite ascii_compare_refl. eauto.
  - apply Ascii.compare_eq_iff in Hxy. subst. by rewrite Hyz.
  - apply Ascii.compare_eq_iff in Hyz. subst. by rewrite Hxy.
  - by rewrite (ascii_compare_lt_trans _ _ _ Hxy Hyz).
Qed.

Lemma str_lt_asym (a b : string) : str_lt a b -> ~ str_lt b a.
Proof. intros H1 H2. exact (str_lt_irrefl a (str_lt_trans _ _ _ H1 H2)). Qed.

Lemma sorted_lookup_lt (names : list string) (i j : nat) (a b : string) :
  StronglySorted str_lt names -> (i < j)%nat ->
  names !! i = Some a -> names !! j = Some b -> str_lt a b.
Proof.
  intros Hs. revert i j. induction Hs as [|n names Hs IH Hall]; intros i j Hij Hi Hj.
  - done.
  - destruct j as [|j]; [lia|]. destruct i as [|i]; cbn in Hi, Hj.
    + injection Hi as ->. rewrite Forall_forall in Hall. apply Hall.
      by eapply list_elem_of_lookup_2.
    + eapply (IH i j); [lia|done..].
Qed.

(** ** [insert_element_at_index] splices the element in *)

Lemma move_over_shape {A} (l : list A) (i : nat) :
  forall (k : nat) (y : A), (i + k <= length l)%nat ->
  exists y', move_over i k (take (i + k) l ++ y :: drop (i + k) l)
             = take i l ++ y' :: drop i l.
Proof.
  induction k as [|k IH]; intros y Hk.
  - rewrite Nat.add_0_r. cbn. eauto.
  - cbn [move_over].
    destruct (lookup_lt_is_Some_2 l (i + k)) as [z Hz]; [lia|].
    rewrite lookup_app_l by (rewrite length_take; lia).
    rewrite lookup_take_lt by lia. rewrite Hz.
    rewrite insert_app_r_alt by (rewrite length_take; lia).
    replace (S (i + k) - length (take (i + S k) l))%nat with 0%nat
      by (rewrite length_take; lia).
    cbn [insert list_insert].
    replace (i + S k)%nat with (S (i + k)) by lia.
    rewrite (take_S_r _ _ _ Hz), <- app_assoc. cbn [app].
    rewrite <- (drop_S _ _ _ Hz). apply IH. lia.
Qed.

Lemma insert_element_at_index_splice {A} (x : A) (l : list A) (i : nat) :
  (i <= length l)%nat ->
  insert_element_at_index x l (Z.of_nat i) = Ok (take i l ++ x :: drop i l).
Proof.
  intros Hi. unfold insert_element_at_index, assert, append_array_element.
  destruct (Z.leb_spec 0 (Z.of_nat i)) as [_|?]; [|lia].
  destruct (Z.leb_spec (Z.of_nat i) (Z.of_nat (length l))) as [_|?]; [|lia].
  cbn [andb]. rewrite Nat2Z.id.
  destruct (Z.eqb_spec (Z.of_nat (length l)) 0) as [Hz|Hz]; cbn [negb andb].
  { assert (length l = 0%nat) as Hl by lia. destruct l; [|done].
    by destruct i. }
  destruct (Z.eqb_spec (Z.of_nat i) (Z.of_nat (length l))) as [He|He]; cbn [negb].
  { assert (i = length l) as -> by lia. by rewrite take_ge, drop_ge by lia. }
  destruct (move_over_shape l i (length l - i) x ltac:(lia)) as [y' Hy'].
  replace (i + (length l - i))%nat with (length l) in Hy' by lia.
  rewrite take_ge, drop_ge in Hy' by lia. rewrite Hy'.
  rewrite insert_app_r_alt by (rewrite length_take; lia).
  replace (i - length (take i l))%nat with 0%nat by (rewrite length_take; lia).
  done.
Qed.

(** ** The binary search finds the insertion point *)

Section BinarySearch.

Context (store : list (option t_pin_def)) (net_list : list ptr)
  (names : list string) (name : string).
Context (Hnames : names_of store net_list names)
  (Hsorted : StronglySorted str_lt names).

Lemma net_name_ok (i : nat) (n : string) :
  names !! i = Some n -> net_name store net_list (Z.of_nat i) = Ok n.
Proof using Hnames.
  intros Hi. destruct (Forall2_lookup_r _ _ _ _ _ Hnames Hi) as (p & Hp & pin & Hpin & <-).
  unfold net_name, element. destruct (Z.ltb_spec (Z.of_nat i) 0); [lia|].
  rewrite Nat2Z.id, Hp. cbn [rbind]. by rewrite (deref_pin_live _ _ _ Hpin).
Qed.

Lemma search_loop_spec (fuel : nat) :
  forall left right index,
    0 <= left -> right < Z.of_nat (length names) -> left <= right + 1 ->
    right - left + 1 <= Z.of_nat fuel ->
    below names name left -> above names name right ->
    (right < left -> probe_ok names name index) ->
    exists idx, search_loop fuel store name net_list left right index = Ok idx
                /\ probe_ok names name idx.
Proof using Hnames Hsorted.
  induction fuel as [|fuel IH]; intros left right index Hl Hr Hlr Hfuel Hbelow Habove Hidx;
    cbn [search_loop]; destruct (Z.leb_spec left right) as [Hle|Hgt];
    try (eexists; split; [reflexivity | apply Hidx; lia]); [lia|].
  rewrite Z.quot_div_nonneg by lia.
  set (mid := (left + right) / 2).
  assert (Hmid : left <= mid <= right).
  { subst mid. split; [apply Z.div_le_lower_bound | apply Z.div_le_upper_bound]; lia. }
  destruct (lookup_lt_is_Some_2 names (Z.to_nat mid)) as [n Hn]; [lia|].
  assert (Hprobe : net_name store net_list mid = Ok n).
  { replace mid with (Z.of_nat (Z.to_nat mid)) by lia. by apply net_name_ok. }
  rewrite Hprobe. cbn [rbind].
  destruct (strcmp name n) eqn:Hcmp.
  - apply strcmp_eq in Hcmp. subst n. exists mid. split; [done|].
    exists (Z.to_nat mid), name. split; [lia|]. auto.
  - apply IH; try lia; [done| |].
    + intros i x Hi Hx. destruct (decide (i = Z.to_nat mid)) as [->|Hne].
      * congruence.
      * apply (str_lt_trans _ n); [done|].
        apply (sorted_lookup_lt names (Z.to_nat mid) i); [done|lia|done..].
    + intros Hend. exists (Z.to_nat mid), n. split; [lia|]. split; [done|].
      right; right. split; [done|]. intros i x Hi. apply Hbelow. lia.
  - apply strcmp_gt_lt in Hcmp. apply IH; try lia; [|done|].
    + intros i x Hi Hx. destruct (decide (i = Z.to_nat mid)) as [->|Hne].
      * congruence.
      * apply (str_lt_trans _ n); [|done].
        apply (sorted_lookup_lt names i (Z.to_nat mid)); [done|lia|done..].
    + intros Hend. exists (Z.to_nat mid), n. split; [lia|]. split; [done|].
      right; left. split; [done|]. intros i x Hi. apply Habove. lia.
Qed.

Lemma find_position_spec :
  exists p : nat,
    find_position_for_net_in_array store name net_list = Ok (Z.of_nat p)
    /\ (p <= length names)%nat
    /\ Forall (fun n => str_lt n name) (take p names)
    /\ (names !! p = Some name \/ Forall (str_lt name) (drop p names)).
Proof using Hnames Hsorted.
  unfold find_position_for_net_in_array.
  rewrite (Forall2_length _ _ _ Hnames).
  destruct (Z.ltb_spec (Z.of_nat (length names) - 1) 0) as [Hempty|Hne].
  { exists 0%nat. assert (names = []) as -> by (destruct names; [done|cbn in *; lia]).
    repeat split; auto. }
  destruct (lookup_lt_is_Some_2 names (length names - 1)) as [nl Hnl]; [lia|].
  replace (Z.of_nat (length names) - 1) with (Z.of_nat (length names - 1)) by lia.
  rewrite (net_name_ok _ _ Hnl). cbn [rbind].
  destruct (strcmp name nl) eqn:Hlast.
  3:{ apply strcmp_gt_lt in Hlast. exists (length names).
      rewrite take_ge, drop_ge by lia. repeat split; auto.
      apply Forall_lookup. intros i x Hx.
      destruct (decide (i = (length names - 1)%nat)) as [->|Hi]; [congruence|].
      apply (str_lt_trans _ nl); [|done].
      apply lookup_lt_Some in Hx as Hlt.
      apply (sorted_lookup_lt names i (length names - 1)); [done|lia|done..]. }
  all: destruct (lookup_lt_is_Some_2 names 0) as [n0 Hn0]; [lia|].
  all: change 0 with (Z.of_nat 0) at 1; rewrite (net_name_ok _ _ Hn0); cbn [rbind].
  all: destruct (strcmp name n0) eqn:Hfirst.
  all: try (exists 0%nat; split; [done|]; split; [lia|]; split; [by constructor|];
            right; rewrite drop_0; apply Forall_lookup; intros i x Hx;
            destruct i as [|i]; [replace x with n0 by congruence; exact Hfirst|];
            apply (str_lt_trans _ n0); [done|];
            apply (sorted_lookup_lt names 0 (S i)); [done|lia|done..]).
  all: destruct (search_loop_spec (length names) 0 (Z.of_nat (length names - 1)) 0)
         as (idx & -> & i & n & -> & Hn & Hprobe);
    [lia|lia|lia|lia
    |intros i x Hi; lia
    |intros i x Hi Hx; apply lookup_lt_Some in Hx; lia
    |lia|].
  all: cbn [rbind]; apply lookup_lt_Some in Hn as Hlt.
  all: destruct (Z.ltb_spec (Z.of_nat i) (Z.of_nat (length names))); [|lia].
  all: rewrite (net_name_ok _ _ Hn); cbn [rbind].
  all: assert (Hbefore : forall j x, (j < i)%nat -> names !! j = Some x -> str_lt x n)
         by (intros j x Hj Hx; apply (sorted_lookup_lt names j i); done).
  all: assert (Hafter : forall j x, (i < j)%nat -> names !! j = Some x -> str_lt n x)
         by (intros j x Hj Hx; apply (sorted_lookup_lt names i j); done).
  all: destruct Hprobe as [->|[[Hlt' Hab]|[Hgt' Hbe]]].
  all: try (rewrite strcmp_refl; exists i; split; [done|]; split; [lia|];
            split; [|by left]; apply Forall_lookup; intros j x Hx;
            apply lookup_take_Some in Hx as [Hx Hj]; eauto).
  all: try (unfold str_lt in Hlt'; rewrite Hlt'; exists (S i);
            split; [f_equal; lia|]; split; [lia|]; split;
            [apply Forall_lookup; intros j x Hx;
             apply lookup_take_Some in Hx as [Hx Hj];
             destruct (decide (j = i)) as [->|Hji];
             [replace x with n by congruence; done
             |apply (str_lt_trans _ n); [apply (Hbefore j); [lia|done] | done]]
            |right; apply Forall_lookup; intros j x Hx; rewrite lookup_drop in Hx;
             apply (Hab (S i + j)%nat); [lia|done]]).
  all: apply strcmp_gt_lt in Hgt' as Hgt''; rewrite Hgt''; exists i;
    split; [done|]; split; [lia|]; split;
    [apply Forall_lookup; intros j x Hx; apply lookup_take_Some in Hx as [Hx Hj];
     apply (Hbe j); [lia|done]
    |right; apply Forall_lookup; intros j x Hx; rewrite lookup_drop in Hx;
     destruct j as [|j];
     [rewrite Nat.add_0_r in Hx; replace x with n by congruence; done
     |apply (str_lt_trans _ n); [done|apply (Hafter (i + S j)%nat); [lia|done]]]].
Qed.

End BinarySearch.

(** ** [add_pin] keeps the index sorted *)

Lemma names_of_grow store extra net_list names :
  names_of store net_list names -> names_of (store ++ extra) net_list names.
Proof.
  intros H. eapply Forall2_impl; [exact H|].
  intros p n (pin & Hp & Hn). exists pin. split; [|done].
  rewrite lookup_app_l; [done|]. by eapply lookup_lt_Some.
Qed.

Lemma names_of_live store net_list names p :
  names_of store net_list names -> p ∈ net_list -> (p < length store)%nat.
Proof.
  intros Hn Hp. apply list_elem_of_lookup_1 in Hp as [i Hi].
  destruct (Forall2_lookup_l _ _ _ _ _ Hn Hi) as (n & _ & pin & Hpin & _).
  by eapply lookup_lt_Some.
Qed.

Lemma not_in_split (names : list string) (name : string) (i : nat) :
  Forall (fun n => str_lt n name) (take i names) ->
  Forall (str_lt name) (drop i names) ->
  name ∉ names.
Proof.
  intros Hb Ha Hin. rewrite <- (take_drop i names) in Hin.
  apply elem_of_app in Hin as [Hin|Hin].
  - rewrite Forall_forall in Hb. exact (str_lt_irrefl _ (Hb _ Hin)).
  - rewrite Forall_forall in Ha. exact (str_lt_irrefl _ (Ha _ Hin)).
Qed.

Lemma sorted_splice (names : list string) (name : string) (i : nat) :
  StronglySorted str_lt names ->
  Forall (fun n => str_lt n name) (take i names) ->
  Forall (str_lt name) (drop i names) ->
  StronglySorted str_lt (take i names ++ name :: drop i names).
Proof.
  intros Hs Hb Ha. rewrite <- (take_drop i names) in Hs.
  apply StronglySorted_app in Hs as (_ & Hs1 & Hs2).
  apply StronglySorted_app. split; [|split; [done|by constructor]].
  rewrite Forall_forall in Hb. rewrite Forall_forall in Ha.
  intros x y Hx Hy. apply elem_of_cons in Hy as [->|Hy]; [by apply Hb|].
  apply (str_lt_trans _ name); auto.
Qed.

Lemma add_pin_spec (st : state) (names : list string) (name : string)
    (left right : Z) (type : t_pin_def_type) :
  index_ok st names ->
  (exists (i : nat) (p : ptr),
      names !! i = Some name /\ default [] (pin_list st) !! i = Some p
      /\ add_pin name left right type st = Ok (p, after_duplicate name st))
  \/ ((name ∉ names) /\ exists i : nat,
        (i <= length names)%nat
        /\ add_pin name left right type st
           = Ok (length (pin_store st), after_insert name left right type i st)
        /\ StronglySorted str_lt (take i names ++ name :: drop i names)).
Proof.
  intros [Hnames Hsorted].
  set (net_list := default [] (pin_list st)) in *.
  set (new_pin := mk_pin name left right type (negb (left =? right))).
  assert (Hgrow : names_of (pin_store st ++ [Some new_pin]) net_list names)
    by by apply names_of_grow.
  destruct (find_position_spec _ _ _ name Hgrow Hsorted) as (i & Hfind & Hi & Hb & Ha).
  assert (Hlen : length net_list = length names) by by eapply Forall2_length.
  assert (Hi' : (i <= length net_list)%nat) by (rewrite Hlen; exact Hi).
  assert (Hrun : add_pin name left right type st =
    let st1 := mk_state (pin_store st ++ [Some new_pin]) (node_store st)
                 (module_list st) (assignment_list st) (node_list st)
                 (Some net_list) (most_recently_used_node st) (yylineno st)
                 (console st) in
    let insert (_ : unit) :=
      let* l := insert_element_at_index (length (pin_store st)) net_list (Z.of_nat i) in
      Ok (length (pin_store st), set_pin_list (Some l) st1) in
    if (0 <=? Z.of_nat i) && (Z.of_nat i <? Z.of_nat (length net_list)) then
      let* test_pin := element net_list (Z.of_nat i) in
      let* test := deref_pin (pin_store st ++ [Some new_pin]) test_pin in
      if strcmp (pin_name test) name is Eq then
        Ok (test_pin,
            set_pin_store (fun s => <[length (pin_store st) := None]> s)
              (printf (Warning_duplicate_net name (yylineno st)) st1))
      else insert ()
    else insert ()).
  { unfold add_pin. subst net_list new_pin.
    destruct st as [ps ns ml al nl [l|] mr yl co];
      cbn [pin_store pin_list set_pin_store set_pin_list default from_option id] in *;
      rewrite Hfind; reflexivity. }
  rewrite Hrun. clear Hrun. cbv zeta.
  assert (Hins : (let* l := insert_element_at_index (length (pin_store st)) net_list
                              (Z.of_nat i) in
                  Ok (length (pin_store st),
                      set_pin_list (Some l)
                        (mk_state (pin_store st ++ [Some new_pin]) (node_store st)
                           (module_list st) (assignment_list st) (node_list st)
                           (Some net_list) (most_recently_used_node st) (yylineno st)
                           (console st))))
                 = Ok (length (pin_store st), after_insert name left right type i st)).
  { rewrite (insert_element_at_index_splice _ net_list i Hi'). reflexivity. }
  destruct (Z.leb_spec 0 (Z.of_nat i)) as [_|?]; [|lia]. cbn [andb].
  destruct (Z.ltb_spec (Z.of_nat i) (Z.of_nat (length net_list))) as [Hlt|Hge].
  - destruct (lookup_lt_is_Some_2 names i) as [n Hn]; [lia|].
    destruct (Forall2_lookup_r _ _ _ _ _ Hgrow Hn) as (p & Hp & pin & Hpin & Hname).
    unfold element. destruct (Z.ltb_spec (Z.of_nat i) 0); [lia|].
    rewrite Nat2Z.id, Hp. cbn [rbind]. rewrite (deref_pin_live _ _ _ Hpin).
    cbn [rbind]. rewrite Hname.
    destruct (strcmp n name) eqn:Hcmp.
    + apply strcmp_eq in Hcmp. rewrite Hcmp in Hn. left. exists i, p. split; [done|].
      split; [done|]. f_equal. f_equal. unfold after_duplicate, set_pin_store, printf.
      cbn. f_equal. rewrite insert_app_r_alt by lia. by rewrite Nat.sub_diag.
    + right. destruct Ha as [Ha|Ha].
      { rewrite Hn in Ha. injection Ha as ->. by rewrite strcmp_refl in Hcmp. }
      split; [by eapply not_in_split|]. exists i. split; [lia|].
      split; [done|]. by apply sorted_splice.
    + right. destruct Ha as [Ha|Ha].
      { rewrite Hn in Ha. injection Ha as ->. by rewrite strcmp_refl in Hcmp. }
      split; [by eapply not_in_split|]. exists i. split; [lia|].
      split; [done|]. by apply sorted_splice.
  - right. destruct Ha as [Ha|Ha].
    { apply lookup_lt_Some in Ha. lia. }
    split; [by eapply not_in_split|]. exists i. split; [lia|].
    split; [done|]. by apply sorted_splice.
Qed.

Lemma index_ok_initial : index_ok initial_state [].
Proof. split; constructor. Qed.

Lemma index_ok_after_duplicate st names name :
  index_ok st names -> index_ok (after_duplicate name st) names.
Proof. intros [Hn Hs]. split; [|done]. by apply names_of_grow. Qed.

Lemma index_ok_after_insert st names name left right type i :
  index_ok st names ->
  StronglySorted str_lt (take i names ++ name :: drop i names) ->
  index_ok (after_insert name left right type i st)
    (take i names ++ name :: drop i names).
Proof.
  intros [Hn Hs] Hs'. split; [|done]. unfold after_insert, names_of. cbn.
  apply Forall2_app; [apply Forall2_take; by apply names_of_grow|].
  constructor; [|apply Forall2_drop; by apply names_of_grow].
  eexists. split.
  - rewrite lookup_app_r by lia. by rewrite Nat.sub_diag.
  - reflexivity.
Qed.

Lemma sorted_lookup_inj (names : list string) (i j : nat) (n : string) :
  StronglySorted str_lt names ->
  names !! i = Some n -> names !! j = Some n -> i = j.
Proof.
  intros Hs Hi Hj. destruct (Nat.lt_trichotomy i j) as [H|[H|H]]; [|done|].
  - destruct (str_lt_irrefl n). by eapply (sorted_lookup_lt names i j).
  - destruct (str_lt_irrefl n). by eapply (sorted_lookup_lt names j i).
Qed.

(** Every declaration succeeds, keeps the index sorted, and leaves the pins
    that were in the index where they were. *)
Lemma add_pin_total st names name left right type :
  index_ok st names ->
  exists p st' names',
    add_pin name left right type st = Ok (p, st')
    /\ index_ok st' names'
    /\ pin_list st' <> None
    /\ (forall n, n ∈ names' <-> n = name \/ n ∈ names)
    /\ (forall q pin, q ∈ default [] (pin_list st) ->
          pin_store st !! q = Some (Some pin) ->
          q ∈ default [] (pin_list st') /\ pin_store st' !! q = Some (Some pin)).
Proof.
  intros Hok.
  destruct (add_pin_spec st names name left right type Hok)
    as [(i & p & Hi & Hp & Hrun)|(Hnot & i & Hi & Hrun & Hs)].
  - exists p, (after_duplicate name st), names. split; [done|].
    split; [by apply index_ok_after_duplicate|]. split; [done|]. split.
    + intros n. split; [auto|]. intros [->|?]; [|done].
      by eapply list_elem_of_lookup_2.
    + intros q pin Hq Hpin. split; [done|]. cbn.
      rewrite lookup_app_l; [done|]. by eapply lookup_lt_Some.
  - eexists _, _, _. split; [exact Hrun|].
    split; [by apply index_ok_after_insert|]. split; [done|]. split.
    + intros n. rewrite elem_of_app, elem_of_cons.
      assert (Hsplit : n ∈ names <-> n ∈ take i names \/ n ∈ drop i names)
        by by rewrite <- elem_of_app, take_drop.
      tauto.
    + intros q pin Hq Hpin. cbn. split.
      * rewrite <- (take_drop i (default [] (pin_list st))) in Hq.
        rewrite elem_of_app in Hq. rewrite elem_of_app, elem_of_cons. tauto.
      * rewrite lookup_app_l; [done|]. by eapply lookup_lt_Some.
Qed.

Lemma declare_all_total decls : forall st names,
  index_ok st names ->
  exists st' names',
    declare_all decls st = Ok st'
    /\ index_ok st' names'
    /\ (decls <> [] \/ pin_list st <> None -> pin_list st' <> None)
    /\ (forall n, n ∈ names' <-> n ∈ map declared_name decls \/ n ∈ names)
    /\ (forall q pin, q ∈ default [] (pin_list st) ->
          pin_store st !! q = Some (Some pin) ->
          q ∈ default [] (pin_list st') /\ pin_store st' !! q = Some (Some pin)).
Proof.
  induction decls as [|[[[name left] right] type] decls IH]; intros st names Hok.
  - exists st, names. split; [done|]. split; [done|]. split; [intros [?|?]; done|].
    split; [|auto]. intros n. cbn. rewrite elem_of_nil. tauto.
  - destruct (add_pin_total st names name left right type Hok)
      as (p & st1 & names1 & Hrun & Hok1 & Hlist1 & Hnames1 & Hkeep1).
    destruct (IH st1 names1 Hok1) as (st' & names' & Hrun' & Hok' & Hlist' & Hnames' & Hkeep').
    exists st', names'. cbn [declare_all]. rewrite Hrun. cbn [rbind].
    split; [done|]. split; [done|]. split; [auto|]. split.
    + intros n. rewrite Hnames', Hnames1. cbn [map declared_name].
      rewrite elem_of_cons. tauto.
    + intros q pin Hq Hpin. destruct (Hkeep1 q pin Hq Hpin). by apply Hkeep'.
Qed.

Lemma locate_net_by_name_spec st net_list names name :
  sorted_index st net_list names ->
  exists r, locate_net_by_name name st = Ok r /\ lookup_answer st net_list name r.
Proof.
  intros (Hlist & Hnames & Hsorted). unfold locate_net_by_name. rewrite Hlist.
  destruct (find_position_spec _ _ _ name Hnames Hsorted) as (i & -> & Hi & Hb & Ha).
  cbn [rbind]. rewrite (Forall2_length _ _ _ Hnames).
  assert (Hmiss : Forall (str_lt name) (drop i names) ->
            lookup_answer st net_list name None).
  { intros Hd q pin Hq Hpin Hname.
    apply list_elem_of_lookup_1 in Hq as [j Hj].
    destruct (Forall2_lookup_l _ _ _ _ _ Hnames Hj) as (n & Hn & pin' & Hpin' & Hn').
    assert (pin' = pin) by congruence. subst pin'.
    eapply (not_in_split names name i); [done..|].
    rewrite <- Hname, Hn'. by eapply list_elem_of_lookup_2. }
  destruct (Z.ltb_spec (Z.of_nat i) (Z.of_nat (length names))) as [Hlt|Hge].
  - destruct (lookup_lt_is_Some_2 names i) as [n Hn]; [lia|].
    destruct (Forall2_lookup_r _ _ _ _ _ Hnames Hn) as (p & Hp & pin & Hpin & Hname).
    unfold element. destruct (Z.ltb_spec (Z.of_nat i) 0); [lia|].
    rewrite Nat2Z.id, Hp. cbn [rbind]. rewrite (deref_pin_live _ _ _ Hpin).
    cbn [rbind]. rewrite Hname.
    assert (Hne : n <> name -> Forall (str_lt name) (drop i names)).
    { intros Hne. destruct Ha as [Ha|Ha]; [congruence|done]. }
    destruct (strcmp n name) eqn:Hcmp.
    + apply strcmp_eq in Hcmp. rewrite Hcmp in Hn, Hname.
      exists (Some p). split; [done|]. split; [by eapply list_elem_of_lookup_2|].
      split; [eauto|]. intros q pin' Hq Hpin' Hname'.
      apply list_elem_of_lookup_1 in Hq as [j Hj].
      destruct (Forall2_lookup_l _ _ _ _ _ Hnames Hj) as (n' & Hn' & pin'' & Hpin'' & Hn'').
      assert (pin'' = pin') by congruence. subst pin''.
      rewrite Hname' in Hn''. subst n'.
      assert (j = i) by by eapply sorted_lookup_inj. subst j. congruence.
    + exists None. split; [done|]. apply Hmiss, Hne. intros ->.
      by rewrite strcmp_refl in Hcmp.
    + exists None. split; [done|]. apply Hmiss, Hne. intros ->.
      by rewrite strcmp_refl in Hcmp.
  - exists None. split; [done|]. apply Hmiss. rewrite drop_ge by lia. constructor.
Qed.

(** C6 (as amended).  For every non-empty sequence of net declarations
    ([add_pin] calls), started on the fresh engine or on any sorted index,
    every call returns, the Ordered Net Index afterwards holds live pins whose
    names are strictly ascending in the byte order of [strcmp] (this holds for
    every prefix of the sequence, hence after every operation), the names in
    it are exactly the declared ones, and [locate_net_by_name] returns the
    unique pin of the index that bears the queried name, or [NULL] when no pin
    of the index bears it. *)
Theorem ordered_net_index (st : state) (names : list string)
    (decls : list declaration) :
  index_ok st names ->
  decls <> [] ->
  exists st' net_list names',
    declare_all decls st = Ok st'
    /\ sorted_index st' net_list names'
    /\ (forall n, n ∈ names' <-> n ∈ map declared_name decls \/ n ∈ names)
    /\ (forall name, exists r,
          locate_net_by_name name st' = Ok r
          /\ lookup_answer st' net_list name r).
Proof.
  intros Hok Hne.
  destruct (declare_all_total decls st names Hok)
    as (st' & names' & Hrun & [Hnames' Hsorted'] & Hlist & Hmem & _).
  destruct (pin_list st') as [net_list|] eqn:Hl; [|by destruct Hlist; auto].
  exists st', net_list, names'.
  assert (Hidx : sorted_index st' net_list names').
  { split; [done|]. split; [|done]. exact Hnames'. }
  split; [done|]. split; [done|]. split; [done|].
  intros name. by apply (locate_net_by_name_spec st' net_list names').
Qed.

Lemma ordered_net_index_witness :
  index_ok initial_state []
  /\ exists st' net_list names',
       declare_all [("b"%string, 2, 0, PIN_WIRE); ("a"%string, 3, 0, PIN_WIRE)]
         initial_state = Ok st'
       /\ sorted_index st' net_list names'
       /\ (forall n, n ∈ names' <->
             n ∈ map declared_name
                   [("b"%string, 2, 0, PIN_WIRE); ("a"%string, 3, 0, PIN_WIRE)]
             \/ n ∈ [])
       /\ (forall name, exists r,
             locate_net_by_name name st' = Ok r
             /\ lookup_answer st' net_list name r).
Proof.
  split; [exact index_ok_initial|].
  apply (ordered_net_index initial_state []
           [("b"%string, 2, 0, PIN_WIRE); ("a"%string, 3, 0, PIN_WIRE)]
           index_ok_initial).
  discriminate.
Defined.

(** C6 (as stated) fails for the empty sequence of declarations: on the fresh
    engine there is no index yet, and a lookup is not answered "not found"
    but stopped by [assert(pin_list != NULL)]. *)
Lemma lookup_before_first_declaration :
  declare_all [] initial_state = Ok initial_state
  /\ locate_net_by_name "a" initial_state = AssertFail.
Proof. split; reflexivity. Qed.

(** C7.  Declare a name for the first time, then anything else, then the same
    name again: the second declaration returns the very pointer the first one
    returned, leaves the index (and so its size) as it was, frees the block of
    the new net, prints one duplicate-declaration warning carrying the
    current line number, leaves the first-declared pin untouched, later
    lookups of the name find that pin, and further declarations go on. *)
Theorem duplicate_declaration_returns_first (st : state) (names : list string)
    (name : string) (left right : Z) (type : t_pin_def_type) :
  index_ok st names ->
  name ∉ names ->
  let first := length (pin_store st) in
  let original := mk_pin name left right type (negb (left =? right)) in
  exists st1,
    add_pin name left right type st = Ok (first, st1)
    /\ forall decls, exists st2,
         declare_all decls st1 = Ok st2
         /\ forall left' right' type', exists st3,
              add_pin name left' right' type' st2 = Ok (first, st3)
              /\ pin_list st3 = pin_list st2
              /\ pin_store st3 = pin_store st2 ++ [None]
              /\ pin_store st3 !! first = Some (Some original)
              /\ console st3
                 = console st2 ++ [Warning_duplicate_net name (yylineno st2)]
              /\ locate_net_by_name name st3 = Ok (Some first)
              /\ forall more, exists st4, declare_all more st3 = Ok st4.
Proof.
  intros Hok Hnew first original.
  destruct (add_pin_spec st names name left right type Hok)
    as [(i & p & Hi & _)|(_ & i & Hi & Hrun & Hs)].
  { destruct Hnew. by eapply list_elem_of_lookup_2. }
  eexists. split; [exact Hrun|]. intros decls.
  pose proof (index_ok_after_insert st names name left right type i Hok Hs) as Hok1.
  destruct (declare_all_total decls _ _ Hok1)
    as (st2 & names2 & Hrun2 & Hok2 & Hlist2 & _ & Hkeep2).
  exists st2. split; [exact Hrun2|]. intros left' right' type'.
  destruct (Hkeep2 first original) as [Hin2 Hpin2].
  { cbn. rewrite elem_of_app, elem_of_cons. auto. }
  { cbn. rewrite lookup_app_r by done. subst first. by rewrite Nat.sub_diag. }
  destruct (pin_list st2) as [net_list|] eqn:Hl; [|by destruct Hlist2; auto].
  cbn [default] in Hin2. destruct Hok2 as [Hnames2 Hsorted2].
  rewrite Hl in Hnames2. cbn [default] in Hnames2.
  apply list_elem_of_lookup_1 in Hin2 as [j Hj].
  destruct (Forall2_lookup_l _ _ _ _ _ Hnames2 Hj) as (n & Hn & pin & Hpin & Hname).
  assert (pin = original) by congruence. subst pin. cbn in Hname. subst n.
  assert (Hok2 : index_ok st2 names2).
  { split; [|done]. by rewrite Hl. }
  destruct (add_pin_spec st2 names2 name left' right' type' Hok2)
    as [(i' & p & Hi' & Hp & Hrun3)|(Hnot & _)].
  2:{ destruct Hnot. by eapply list_elem_of_lookup_2. }
  assert (i' = j) by by eapply sorted_lookup_inj. subst i'.
  rewrite Hl in Hp. cbn [default] in Hp. assert (p = first) by congruence. subst p.
  exists (after_duplicate name st2). split; [exact Hrun3|].
  split; [cbn; by rewrite Hl|]. split; [done|].
  split; [cbn; rewrite lookup_app_l; [done|by eapply lookup_lt_Some]|].
  split; [done|].
  pose proof (index_ok_after_duplicate _ _ name Hok2) as Hok3. split.
  - assert (Hidx : sorted_index (after_duplicate name st2) net_list names2).
    { split; [cbn; by rewrite Hl|]. split; [|done].
      cbn. by apply names_of_grow. }
    destruct (locate_net_by_name_spec _ _ _ name Hidx) as ([q|] & -> & Hans).
    + destruct Hans as (_ & _ & Huniq). do 2 f_equal. symmetry.
      apply (Huniq first original); [by eapply list_elem_of_lookup_2| |done].
      cbn. rewrite lookup_app_l; [done|by eapply lookup_lt_Some].
    + destruct (Hans first original); [by eapply list_elem_of_lookup_2| |done].
      cbn. rewrite lookup_app_l; [done|by eapply lookup_lt_Some].
  - intros more. destruct (declare_all_total more _ _ Hok3) as (st4 & _ & Hrun4 & _).
    eauto.
Qed.

Lemma duplicate_declaration_returns_first_witness :
  index_ok state_abc ["a"; "b"; "c"]%string
  /\ ("clk"%string ∉ ["a"; "b"; "c"]%string)
  /\ exists st1,
       add_pin "clk" 0 0 PIN_INPUT state_abc = Ok (3%nat, st1)
       /\ forall decls, exists st2,
            declare_all decls st1 = Ok st2
            /\ forall left' right' type', exists st3,
                 add_pin "clk" left' right' type' st2 = Ok (3%nat, st3)
                 /\ pin_list st3 = pin_list st2
                 /\ pin_store st3 = pin_store st2 ++ [None]
                 /\ pin_store st3 !! 3%nat
                    = Some (Some (mk_pin "clk" 0 0 PIN_INPUT false))
                 /\ console st3
                    = console st2 ++ [Warning_duplicate_net "clk" (yylineno st2)]
                 /\ locate_net_by_name "clk" st3 = Ok (Some 3%nat)
                 /\ forall more, exists st4, declare_all more st3 = Ok st4.
Proof.
  assert (Hok : index_ok state_abc ["a"; "b"; "c"]%string).
  { split.
    - repeat constructor; eexists; (split; [reflexivity|reflexivity]).
    - repeat constructor. }
  assert (Hnew : "clk"%string ∉ ["a"; "b"; "c"]%string).
  { rewrite !elem_of_cons, elem_of_nil. intros [H|[H|[H|H]]]; discriminate || done. }
  split; [exact Hok|]. split; [exact Hnew|].
  exact (duplicate_declaration_returns_first state_abc ["a"; "b"; "c"]%string
           "clk" 0 0 PIN_INPUT Hok Hnew).
Defined.

(** ** Port binding returns *)


Section Total.

Context (st : state) (net_list : list ptr) (names : list string).
Context (Hidx : sorted_index st net_list names).





End Total.





(** ** A whole bus connected to a port *)

Lemma element_lookup {A} (l : list A) (i : nat) (x : A) :
  l !! i = Some x -> element l (Z.of_nat i) = Ok x.
Proof.
  intros H. unfold element. destruct (Z.ltb_spec (Z.of_nat i) 0); [lia|].
  by rewrite Nat2Z.id, H.
Qed.

Lemma create_node_port_association_in_range store port_name port_index pin p w :
  store !! pin = Some (Some p) ->
  Z.min (pin_left p) (pin_right p) <= w <= Z.max (pin_left p) (pin_right p) ->
  create_node_port_association store port_name port_index pin w
  = Ok (mk_assoc port_name port_index pin w).
Proof.
  intros Hp Hw. unfold create_node_port_association, assert.
  rewrite (deref_pin_live _ _ _ Hp). cbn [rbind].
  destruct (Z.leb_spec (pin_left p) w), (Z.leb_spec w (pin_right p)),
    (Z.leb_spec (pin_right p) w), (Z.leb_spec w (pin_left p)); cbn; (done || lia).
Qed.

Lemma associate_bus_wires_count (store : list (option t_pin_def)) (port_name : string)
    (pin : ptr) (p : t_pin_def) (direction : Z) :
  store !! pin = Some (Some p) ->
  forall (k : nat) (port index : Z) (connections : list t_node_port_association),
    (forall j, (j < k)%nat ->
       Z.min (pin_left p) (pin_right p) <= index + Z.of_nat j * direction
       <= Z.max (pin_left p) (pin_right p)) ->
    associate_bus_wires k store port_name port pin index direction connections
    = Ok (connections ++
          map (fun j : nat =>
                 mk_assoc port_name (port - Z.of_nat j) pin
                   (index + Z.of_nat j * direction))
            (seq 0 k)).
Proof.
  intros Hp. induction k as [|k IH]; intros port index connections Hrange;
    cbn [associate_bus_wires].
  - by rewrite app_nil_r.
  - pose proof (Hrange 0%nat ltac:(lia)) as H0.
    rewrite (create_node_port_association_in_range _ _ _ _ p) by (done || lia).
    cbn [rbind]. rewrite IH.
    2:{ intros j Hj. specialize (Hrange (S j) ltac:(lia)). lia. }
    unfold append_array_element. rewrite <- app_assoc. cbn [seq map app].
    do 3 f_equal; [f_equal; lia|].
    rewrite <- seq_shift, map_map. apply map_ext. intros j. f_equal; lia.
Qed.

Lemma associate_whole_bus_expands (st : state) (ident : t_identifier_pass)
    (port_name : string) (port_index : Z) (pin : ptr) (p : t_pin_def) :
  locate_net_by_name (ident_name ident) st = Ok (Some pin) ->
  pin_store st !! pin = Some (Some p) ->
  ident_indexed ident = false ->
  ~ scalar p ->
  associate_identifier_with_port_name ident port_name port_index st
  = Ok (Some (map (fun j : nat =>
                     mk_assoc port_name (width p - Z.of_nat j) pin
                       (if pin_right p <? pin_left p
                        then pin_left p - Z.of_nat j
                        else pin_left p + Z.of_nat j))
                (seq 0 (Z.to_nat (width p + 1))))).
Proof.
  intros Hloc Hp Hix Hbus.
  unfold associate_identifier_with_port_name. rewrite Hloc. cbn [rbind].
  rewrite (deref_pin_live _ _ _ Hp). cbn [rbind]. rewrite Hix.
  unfold scalar in Hbus.
  destruct (Z.eqb_spec (pin_left p - pin_right p) 0); [lia|].
  rewrite (create_node_port_association_in_range _ _ _ _ p) by (done || lia).
  cbn [rbind].
  assert (Habs : my_abs (pin_left p - pin_right p) = width p).
  { unfold my_abs, width. destruct (Z.ltb_spec (pin_left p - pin_right p) 0); lia. }
  rewrite Habs.
  rewrite (associate_bus_wires_count _ _ _ p).
  - cbn [rbind]. unfold append_array_element. cbn [app].
    replace (Z.to_nat (width p + 1)) with (S (Z.to_nat (width p)))
      by (unfold width; lia).
    cbn [seq map]. do 3 f_equal.
    + f_equal; [lia|]. destruct (pin_right p <? pin_left p); lia.
    + rewrite <- seq_shift, map_map. apply map_ext. intros j.
      f_equal; [lia|]. destruct (pin_right p <? pin_left p); lia.
  - done.
  - intros j Hj. unfold width in Hj.
    destruct (Z.ltb_spec (pin_right p) (pin_left p)); lia.
Qed.

Lemma expand_ports_explicit (store : list (option t_pin_def))
    (ports : list t_node_port_association) :
  Forall (explicit_association store) ports ->
  forall (fuel : nat) (index : nat),
    (length ports - index <= fuel)%nat ->
    expand_ports fuel store (Z.of_nat index) ports = Ok ports.
Proof.
  intros Hall. induction fuel as [|fuel IH]; intros index Hfuel; cbn [expand_ports].
  - destruct (Z.ltb_spec (Z.of_nat index) (Z.of_nat (length ports))); [lia|done].
  - destruct (Z.ltb_spec (Z.of_nat index) (Z.of_nat (length ports))); [|done].
    destruct (lookup_lt_is_Some_2 ports index) as [a Ha]; [lia|].
    rewrite (element_lookup _ _ _ Ha). cbn [rbind].
    rewrite Forall_lookup in Hall. destruct (Hall _ _ Ha) as (net & Hnet & Hkind).
    rewrite (deref_pin_live _ _ _ Hnet). cbn [rbind].
    replace (Z.of_nat index + 1) with (Z.of_nat (S index)) by lia.
    assert (Hno : negb (pin_left net - pin_right net =? 0)
                  && (port_index a =? -1)
                  && (wire_index a <? my_min (pin_left net) (pin_right net)) = false).
    { unfold my_min.
      destruct (Z.eqb_spec (pin_left net - pin_right net) 0); [done|].
      destruct (Z.eqb_spec (port_index a) (-1)); [|done].
      destruct (Z.ltb_spec (pin_left net) (pin_right net));
        [destruct (Z.ltb_spec (wire_index a) (pin_left net))
        |destruct (Z.ltb_spec (wire_index a) (pin_right net))];
        cbn; try done; lia. }
    rewrite Hno. apply IH. lia.
Qed.

Lemma create_node_port_association_explicit store port_name port_index pin wire_index a :
  create_node_port_association store port_name port_index pin wire_index = Ok a ->
  explicit_association store a.
Proof.
  unfold create_node_port_association, assert. intros H.
  apply rbind_ok in H as (p & Hp & H). apply deref_pin_inv in Hp.
  destruct (Z.leb_spec (pin_left p) wire_index), (Z.leb_spec wire_index (pin_right p)),
    (Z.leb_spec (pin_right p) wire_index), (Z.leb_spec wire_index (pin_left p));
    cbn in H; try discriminate; injection H as <-; exists p; cbn;
    (split; [done|]); right; right; lia.
Qed.





(** * Further properties *)

(** ** The array layer *)

Lemma store_element_lookup {A} (l : list A) (i : nat) (x : A) :
  (i < length l)%nat -> store_element l (Z.of_nat i) x = Ok (<[i := x]> l).
Proof.
  intros H. unfold store_element. destruct (Z.ltb_spec (Z.of_nat i) 0); [lia|].
  destruct (Z.ltb_spec (Z.of_nat i) (Z.of_nat (length l))); [|lia].
  by rewrite Nat2Z.id.
Qed.

(** X1.  [insert_element_at_index] with an index between 0 and the element
    count splices the element in at that index, keeping the order of the
    others; any other index is a failed assertion. *)
Theorem insert_element_at_index_correct {A} (x : A) (l : list A) (i : Z) :
  insert_element_at_index x l i =
  if decide (0 <= i <= Z.of_nat (length l))
  then Ok (take (Z.to_nat i) l ++ x :: drop (Z.to_nat i) l)
  else AssertFail.
Proof.
  case_decide as Hi.
  - rewrite <- (Z2Nat.id i) at 1 by lia. apply insert_element_at_index_splice. lia.
  - unfold insert_element_at_index, assert.
    destruct (Z.leb_spec 0 i), (Z.leb_spec i (Z.of_nat (length l))); cbn; (done || lia).
Qed.

Lemma copy_down_shift {A} (t : list A) : forall (p : list A) (x : A),
  copy_down (length t) (Z.of_nat (length p)) (p ++ x :: t)
  = Ok (p ++ t ++ [default x (last t)]).
Proof.
  induction t as [|y t IH]; intros p x; cbn [copy_down length].
  - done.
  - replace (Z.of_nat (length p) + 1) with (Z.of_nat (S (length p))) by lia.
    rewrite (element_lookup _ _ y).
    2:{ rewrite lookup_app_r by lia.
        by replace (S (length p) - length p)%nat with 1%nat by lia. }
    cbn [rbind]. rewrite store_element_lookup by (rewrite length_app; cbn; lia).
    cbn [rbind]. rewrite insert_app_r_alt by lia. rewrite Nat.sub_diag.
    cbn [insert list_insert].
    replace (p ++ y :: y :: t) with ((p ++ [y]) ++ y :: t) by by rewrite <- app_assoc.
    replace (S (length p)) with (length (p ++ [y])) by (rewrite length_app; cbn; lia).
    rewrite IH, <- app_assoc. cbn [app]. do 4 f_equal.
    destruct t as [|z t]; [done|]. rewrite last_cons_cons.
    destruct (last (z :: t)) eqn:E; [done|]. by apply last_None in E.
Qed.

Lemma remove_element_by_index_middle {A} (p t : list A) (x : A) :
  remove_element_by_index (Z.of_nat (length p)) (p ++ x :: t) true = Ok (p ++ t).
Proof.
  unfold remove_element_by_index, assert. rewrite length_app. cbn [length].
  destruct (Z.ltb_spec 0 (Z.of_nat (length p + S (length t)))); [|lia].
  replace (Z.to_nat (Z.of_nat (length p + S (length t)) - 1))
    with (length p + length t)%nat by lia.
  destruct (Z.eqb_spec (Z.of_nat (length p + S (length t)) - 1) (Z.of_nat (length p)))
    as [He|He]; cbn [negb rbind].
  - assert (t = []) as -> by (destruct t; [done|cbn in He; lia]).
    rewrite app_nil_r. apply f_equal. rewrite take_app_length'; [done|cbn; lia].
  - replace (Z.to_nat (Z.of_nat (length p + S (length t)) - 1 - Z.of_nat (length p)))
      with (length t) by lia.
    rewrite copy_down_shift. cbn [rbind]. apply f_equal.
    rewrite app_assoc. rewrite take_app_length'; [done|].
    rewrite length_app. lia.
Qed.

Lemma remove_element_by_index_inside {A} (l : list A) (n : nat) (x : A) :
  l !! n = Some x ->
  remove_element_by_index (Z.of_nat n) l true = Ok (delete n l).
Proof.
  intros Hx. apply lookup_lt_Some in Hx as Hlt.
  pose proof (take_drop_middle _ _ _ Hx) as Hl.
  assert (Hp : length (take n l) = n) by (rewrite length_take; lia).
  revert Hl Hp. generalize (take n l) (drop (S n) l).
  intros p t <- Hp. rewrite <- Hp, delete_middle.
  apply remove_element_by_index_middle.
Qed.

(** X2.  [remove_element_by_index] with [preserve_order] set: on an empty
    array the assertion fails; an index inside the array removes that element
    and keeps the order of the others; an index at or beyond the element count
    is not rejected: the last element is dropped instead. *)
Theorem remove_element_by_index_ordered {A} (l : list A) (i : Z) :
  0 <= i ->
  remove_element_by_index i l true =
  if decide (l = []) then AssertFail
  else if decide (i < Z.of_nat (length l)) then Ok (delete (Z.to_nat i) l)
  else Ok (take (length l - 1) l).
Proof.
  intros Hi. case_decide as Hnil; [by subst|].
  assert (0 < length l)%nat by (destruct l; [done|cbn; lia]).
  case_decide as Hin.
  - destruct (lookup_lt_is_Some_2 l (Z.to_nat i)) as [x Hx]; [lia|].
    rewrite <- (remove_element_by_index_inside l _ x Hx). f_equal. lia.
  - unfold remove_element_by_index, assert.
    destruct (Z.ltb_spec 0 (Z.of_nat (length l))); [|lia].
    replace (Z.to_nat (Z.of_nat (length l) - 1)) with (length l - 1)%nat by lia.
    destruct (Z.eqb_spec (Z.of_nat (length l) - 1) i); [lia|]. cbn [negb].
    replace (Z.to_nat (Z.of_nat (length l) - 1 - i)) with 0%nat by lia. done.
Qed.

Lemma remove_element_by_index_ordered_witness :
  0 <= 1 /\ remove_element_by_index 1 [10; 20; 30] true = Ok [10; 30]
  /\ remove_element_by_index 1 [10] true = Ok [].
Proof.
  split; [lia|]. split.
  - exact (remove_element_by_index_ordered [10; 20; 30] 1 ltac:(lia)).
  - exact (remove_element_by_index_ordered [10] 1 ltac:(lia)).
Defined.

(** X3.  [remove_element_by_index] without [preserve_order], for an index
    inside the array: the last element takes the place of the removed one,
    no other slot changes, and what remains is a rearrangement of the array
    without the removed element. *)
Theorem remove_element_by_index_unordered {A} (l : list A) (i : nat) (x : A) :
  l !! i = Some x ->
  exists r, remove_element_by_index (Z.of_nat i) l false = Ok r
    /\ length r = (length l - 1)%nat
    /\ r ≡ₚ delete i l
    /\ (forall j, j <> i -> (j < length l - 1)%nat -> r !! j = l !! j)
    /\ ((i < length l - 1)%nat -> r !! i = last l).
Proof.
  intros Hx. apply lookup_lt_Some in Hx as Hlt.
  unfold remove_element_by_index, assert.
  destruct (Z.ltb_spec 0 (Z.of_nat (length l))); [|lia].
  replace (Z.to_nat (Z.of_nat (length l) - 1)) with (length l - 1)%nat by lia.
  destruct (decide (i = length l - 1)%nat) as [->|Hne].
  - destruct (Z.ltb_spec 1 (Z.of_nat (length l))),
      (Z.ltb_spec (Z.of_nat (length l - 1)) (Z.of_nat (length l) - 1));
      try lia; cbn [andb rbind].
    all: eexists; split; [reflexivity|]; split; [rewrite length_take; lia|].
    all: split; [by rewrite delete_take_drop, (drop_ge l (S _)), app_nil_r by lia|].
    all: split; [intros j _ Hj; by rewrite lookup_take_lt by lia | lia].
  - destruct (Z.ltb_spec 1 (Z.of_nat (length l))); [|lia].
    destruct (Z.ltb_spec (Z.of_nat i) (Z.of_nat (length l) - 1)); [|lia].
    cbn [andb]. destruct (lookup_lt_is_Some_2 l (length l - 1)) as [y Hy]; [lia|].
    replace (Z.of_nat (length l) - 1) with (Z.of_nat (length l - 1)) by lia.
    rewrite (element_lookup _ _ _ Hy). cbn [rbind].
    rewrite store_element_lookup by lia. cbn [rbind].
    eexists. split; [reflexivity|].
    split; [rewrite length_take, length_insert; lia|]. split; [|split].
    + rewrite take_insert_lt by lia.
      assert (Hl : l = take (length l - 1) l ++ [y]).
      { rewrite <- (take_drop (length l - 1) l) at 1. f_equal.
        rewrite (drop_S _ _ _ Hy), drop_ge by lia. done. }
      assert (Hxi : take (length l - 1) l !! i = Some x)
        by by rewrite lookup_take_lt by lia.
      rewrite Hl at 3. rewrite delete_take_drop, take_app_le, drop_app_le
        by (rewrite length_take; lia).
      rewrite insert_take_drop by (rewrite length_take; lia).
      apply Permutation_app_head. by rewrite <- Permutation_cons_append.
    + intros j Hj Hjl. rewrite lookup_take_lt by lia.
      by rewrite list_lookup_insert_ne.
    + intros _. rewrite lookup_take_lt by lia.
      rewrite list_lookup_insert_eq by lia. rewrite last_lookup.
      by replace (pred (length l)) with (length l - 1)%nat by lia.
Qed.

Lemma remove_element_by_index_unordered_witness :
  [10; 20; 30; 40] !! 1%nat = Some 20
  /\ exists r, remove_element_by_index (Z.of_nat 1) [10; 20; 30; 40] false = Ok r
       /\ length r = (length [10; 20; 30; 40] - 1)%nat
       /\ r ≡ₚ delete 1%nat [10; 20; 30; 40]
       /\ (forall j, j <> 1%nat -> (j < length [10; 20; 30; 40] - 1)%nat ->
            r !! j = [10; 20; 30; 40] !! j)
       /\ ((1 < length [10; 20; 30; 40] - 1)%nat -> r !! 1%nat = last [10; 20; 30; 40]).
Proof.
  split; [reflexivity|].
  exact (remove_element_by_index_unordered [10; 20; 30; 40] 1 20 eq_refl).
Defined.

Lemma search_element_first (elem : Z) (l : list Z) : forall k : Z,
  exists n : nat,
    search_element elem l k = k + Z.of_nat n
    /\ (n <= length l)%nat
    /\ (forall j, (j < n)%nat -> l !! j <> Some elem)
    /\ ((n < length l)%nat -> l !! n = Some elem).
Proof.
  induction l as [|x l IH]; intros k; cbn [search_element].
  - exists 0%nat. split; [lia|]. split; [done|]. split; [lia|cbn; lia].
  - destruct (Z.eqb_spec x elem) as [->|Hne].
    + exists 0%nat. split; [lia|]. split; [cbn; lia|]. split; [lia|done].
    + destruct (IH (k + 1)) as (n & Hn & Hle & Hbefore & Hat).
      exists (S n). split; [lia|]. split; [cbn; lia|]. split.
      * intros [|j] Hj; cbn; [congruence|]. apply Hbefore. lia.
      * intros Hlt. cbn. apply Hat. cbn in Hlt. lia.
Qed.

Lemma is_element_in_array_elem_of (elem : Z) (l : list Z) :
  is_element_in_array elem l = true <-> elem ∈ l.
Proof.
  induction l as [|x l IH]; cbn [is_element_in_array].
  - rewrite elem_of_nil. split; [discriminate|done].
  - rewrite elem_of_cons. destruct (Z.eqb_spec x elem) as [->|Hne]; [tauto|].
    rewrite IH. split; [tauto|]. intros [?|?]; [congruence|done].
Qed.

Lemma get_element_index_search (elem : Z) (l : list Z) :
  l <> [] ->
  exists idx,
    get_element_index elem l = Ok idx
    /\ ((idx = -1 /\ (elem ∉ l))
        \/ exists n : nat, idx = Z.of_nat n /\ l !! n = Some elem
                           /\ forall j, (j < n)%nat -> l !! j <> Some elem).
Proof.
  intros Hne.
  assert (0 < length l)%nat by (destruct l; [done|cbn; lia]).
  unfold get_element_index, assert.
  destruct (Z.ltb_spec 0 (Z.of_nat (length l))); [|lia].
  destruct (search_element_first elem l 0) as (n & -> & Hle & Hbefore & Hat).
  destruct (Z.leb_spec (Z.of_nat (length l)) (0 + Z.of_nat n)) as [Hge|Hlt].
  - eexists. split; [reflexivity|]. left. split; [done|].
    intros Hin. apply list_elem_of_lookup_1 in Hin as [j Hj].
    apply (Hbefore j); [|done]. apply lookup_lt_Some in Hj. lia.
  - eexists. split; [reflexivity|].
    right. exists n. split; [lia|]. split; [apply Hat; lia|done].
Qed.

Lemma remove_element_by_content_found (elem : Z) (p t : list Z) :
  elem ∉ p -> remove_element_by_content elem (p ++ elem :: t) true = Ok (p ++ t).
Proof.
  intros Hp. unfold remove_element_by_content.
  assert (Hne : p ++ elem :: t <> []) by by destruct p.
  rewrite length_app. cbn [length].
  destruct (Z.ltb_spec 0 (Z.of_nat (length p + S (length t)))); [|lia].
  destruct (get_element_index_search elem _ Hne)
    as (idx & -> & [[-> Hnot]|(n & -> & Hn & Hbefore)]); cbn [rbind].
  - destruct Hnot. rewrite elem_of_app, elem_of_cons. auto.
  - destruct (Z.leb_spec 0 (Z.of_nat n)); [|lia].
    assert (n = length p) as ->.
    { destruct (Nat.lt_trichotomy n (length p)) as [Hlt|[?|Hgt]]; [|done|].
      - destruct Hp. rewrite lookup_app_l in Hn by done.
        by eapply list_elem_of_lookup_2.
      - destruct (Hbefore (length p) Hgt).
        rewrite lookup_app_r by lia. by rewrite Nat.sub_diag. }
    apply remove_element_by_index_middle.
Qed.

Lemma remove_element_by_content_absent (elem : Z) (l : list Z) :
  elem ∉ l -> remove_element_by_content elem l true = Ok l.
Proof.
  intros Hnot. destruct (decide (l = [])) as [->|Hne]; [done|].
  assert (0 < length l)%nat by (destruct l; [done|cbn; lia]).
  unfold remove_element_by_content.
  destruct (Z.ltb_spec 0 (Z.of_nat (length l))); [|lia].
  destruct (get_element_index_search elem l Hne)
    as (idx & -> & [[-> _]|(n & -> & Hn & _)]); cbn [rbind]; [done|].
  destruct Hnot. by eapply list_elem_of_lookup_2.
Qed.

(** X4.  On a non-empty array [get_element_index] returns the index of the
    first occurrence of the element, or -1 when the element does not occur,
    and [is_element_in_array] answers true exactly when that index is not -1;
    on an empty array [get_element_index] fails its assertion while
    [is_element_in_array] answers false. *)
Theorem get_element_index_first (elem : Z) (l : list Z) :
  l <> [] ->
  (exists idx,
     get_element_index elem l = Ok idx
     /\ ((idx = -1 /\ elem ∉ l)
         \/ exists n : nat, idx = Z.of_nat n /\ l !! n = Some elem
                            /\ forall j, (j < n)%nat -> l !! j <> Some elem)
     /\ (is_element_in_array elem l = true <-> 0 <= idx))
  /\ get_element_index elem [] = AssertFail
  /\ is_element_in_array elem [] = false.
Proof.
  intros Hne. split; [|done].
  destruct (get_element_index_search elem l Hne)
    as (idx & Hrun & [[-> Hnot]|(n & -> & Hn & Hbefore)]).
  - eexists. split; [exact Hrun|]. split; [by left|].
    rewrite is_element_in_array_elem_of. split; [done|lia].
  - eexists. split; [exact Hrun|]. split; [right; by exists n|].
    rewrite is_element_in_array_elem_of. split; [lia|]. intros _.
    by eapply list_elem_of_lookup_2.
Qed.

Lemma get_element_index_first_witness :
  [7; 5; 9; 5] <> []
  /\ exists idx,
       get_element_index 5 [7; 5; 9; 5] = Ok idx
       /\ ((idx = -1 /\ 5 ∉ [7; 5; 9; 5])
           \/ exists n : nat, idx = Z.of_nat n /\ [7; 5; 9; 5] !! n = Some 5
                /\ forall j, (j < n)%nat -> [7; 5; 9; 5] !! j <> Some 5)
       /\ (is_element_in_array 5 [7; 5; 9; 5] = true <-> 0 <= idx).
Proof.
  assert (H : [7; 5; 9; 5] <> []) by discriminate.
  split; [exact H|]. exact (proj1 (get_element_index_first 5 [7; 5; 9; 5] H)).
Defined.

(** X5.  [remove_element_by_content] with [preserve_order] set removes the
    first occurrence of the element and nothing else; when the element does
    not occur, or the array is empty, the array comes back as it was. *)
Theorem remove_element_by_content_first (elem : Z) (l : list Z) :
  exists r,
    remove_element_by_content elem l true = Ok r
    /\ (elem ∉ l -> r = l)
    /\ (elem ∈ l -> exists p t, l = p ++ elem :: t /\ (elem ∉ p) /\ r = p ++ t).
Proof.
  destruct (decide (elem ∈ l)) as [Hin|Hnot].
  - apply list_elem_of_split_l in Hin as (p & t & -> & Hp).
    exists (p ++ t). split; [by apply remove_element_by_content_found|].
    split; [|by eauto]. intros Hnot. destruct Hnot.
    rewrite elem_of_app, elem_of_cons. auto.
  - exists l. split; [by apply remove_element_by_content_absent|]. by split.
Qed.

(** ** Allocation *)

Lemma calculate_array_size_bounds (n : Z) :
  0 <= n <= INT_MAX - 128 ->
  exists c, calculate_array_size_using_bounds n = Ok c
            /\ n <= c /\ 4 <= c /\ c <= Z.max 512 (n + 128).
Proof.
  intros Hn. unfold INT_MAX in Hn.
  destruct (Z.le_gt_cases n 4).
  { exists 4. split; [apply capacity_small; lia|lia]. }
  destruct (Z.le_gt_cases n 128).
  - exists (4 * 2 ^ Z.log2 n). split; [apply capacity_mid; lia|].
    pose proof (Z.log2_spec n ltac:(lia)) as [Hlo Hhi].
    rewrite Z.pow_succ_r in Hhi by apply Z.log2_nonneg. lia.
  - exists (128 * (n / 128 + 1)).
    split; [apply capacity_large; unfold INT_MAX; lia|].
    pose proof (Z.mul_div_le n 128 ltac:(lia)).
    pose proof (Z.mul_succ_div_gt n 128 ltac:(lia)). lia.
Qed.

(** X7.  The array layer never under-allocates: for every element count the
    computed capacity is at least that count (and at least 4), and
    [append_array_element] always asks [realloc] for a block with room for
    more than the current elements, so the store at index [element_count]
    stays inside the block. *)
Theorem append_never_overflows_block (n : Z) :
  0 <= n <= INT_MAX - 1000 ->
  (exists c, calculate_array_size_using_bounds n = Ok c /\ n <= c /\ 4 <= c)
  /\ exists m c,
       calculate_array_size_using_bounds (n + 1) = Ok m
       /\ calculate_array_size_using_bounds m = Ok c
       /\ append_array_element_capacity n = Ok (Some c)
       /\ n < m <= c.
Proof.
  intros Hn. unfold INT_MAX in Hn. split.
  - destruct (calculate_array_size_bounds n) as (c & Hc & ?); [unfold INT_MAX; lia|].
    exists c. split; [done|lia].
  - destruct (calculate_array_size_bounds (n + 1)) as (m & Hm & ? & ? & ?);
      [unfold INT_MAX; lia|].
    destruct (calculate_array_size_bounds m) as (c & Hc & ? & ? & ?);
      [unfold INT_MAX; lia|].
    exists m, c. split; [done|]. split; [done|]. split; [|lia].
    unfold append_array_element_capacity, assert.
    destruct (Z.leb_spec 0 n); [|lia]. rewrite Hm. cbn [rbind].
    destruct (Z.ltb_spec n m); [|lia]. by rewrite Hc.
Qed.

Lemma append_never_overflows_block_witness :
  0 <= 4 <= INT_MAX - 1000
  /\ append_array_element_capacity 4 = Ok (Some 64).
Proof.
  assert (H : 0 <= 4 <= INT_MAX - 1000) by (unfold INT_MAX; lia).
  split; [exact H|].
  destruct (proj2 (append_never_overflows_block 4 H)) as (m & c & Hm & Hc & -> & _).
  injection Hm as <-. by injection Hc as <-.
Defined.

(** ** Nodes and their parameters *)

Lemma scan_nodes_first (store : list t_node) (name : string) (nodes : list ptr) :
  Forall (fun p => is_Some (store !! p)) nodes ->
  exists r, scan_nodes store name nodes = Ok r
    /\ match r with
       | Some p =>
           exists (i : nat) node,
             nodes !! i = Some p /\ store !! p = Some node /\ node_name node = name
             /\ forall j q nq, (j < i)%nat -> nodes !! j = Some q ->
                  store !! q = Some nq -> node_name nq <> name
       | None =>
           forall q nq, q ∈ nodes -> store !! q = Some nq -> node_name nq <> name
       end.
Proof.
  induction nodes as [|p nodes IH]; intros Hlive; cbn [scan_nodes].
  - exists None. split; [done|]. by intros q nq ?%elem_of_nil.
  - apply Forall_cons in Hlive as [[node Hnode] Hlive].
    unfold deref_node. rewrite Hnode. cbn [rbind].
    destruct (strcmp (node_name node) name) eqn:Hcmp.
    + apply strcmp_eq in Hcmp. exists (Some p). split; [done|].
      exists 0%nat, node. repeat split; try done. lia.
    + destruct (IH Hlive) as (r & -> & Hr). exists r. split; [done|].
      assert (Hne : node_name node <> name)
        by (intros <-; by rewrite strcmp_refl in Hcmp).
      destruct r as [q|].
      * destruct Hr as (i & nq & Hi & Hq & Hname & Hbefore).
        exists (S i), nq. repeat split; try done.
        intros [|j] q' nq' Hj Hq' Hnq'; cbn in Hq'; [congruence|].
        eapply Hbefore; [|done..]. lia.
      * intros q nq [->|Hq]%elem_of_cons Hnq; [congruence|eauto].
    + destruct (IH Hlive) as (r & -> & Hr). exists r. split; [done|].
      assert (Hne : node_name node <> name)
        by (intros <-; by rewrite strcmp_refl in Hcmp).
      destruct r as [q|].
      * destruct Hr as (i & nq & Hi & Hq & Hname & Hbefore).
        exists (S i), nq. repeat split; try done.
        intros [|j] q' nq' Hj Hq' Hnq'; cbn in Hq'; [congruence|].
        eapply Hbefore; [|done..]. lia.
      * intros q nq [->|Hq]%elem_of_cons Hnq; [congruence|eauto].
Qed.

(** X8.  With a node list of live nodes, [locate_node_by_name] returns the
    first node of the list that bears the name (so with duplicate instance
    names the earliest declaration wins), or [NULL] when no node bears it;
    without a node list it dereferences [NULL]. *)
Theorem locate_node_by_name_first (st : state) (name : string) :
  nodes_live st ->
  match node_list st with
  | None => locate_node_by_name name st = Fault
  | Some nodes =>
      exists r, locate_node_by_name name st = Ok r
        /\ match r with
           | Some p =>
               exists (i : nat) node,
                 nodes !! i = Some p /\ node_store st !! p = Some node
                 /\ node_name node = name
                 /\ forall j q nq, (j < i)%nat -> nodes !! j = Some q ->
                      node_store st !! q = Some nq -> node_name nq <> name
           | None => ~ node_named st nodes name
           end
  end.
Proof.
  unfold nodes_live, locate_node_by_name. intros Hlive.
  destruct (node_list st) as [nodes|]; [|done]. cbn [default from_option id] in Hlive.
  destruct (scan_nodes_first _ name _ Hlive) as (r & -> & Hr).
  exists r. split; [done|]. destruct r; [done|].
  intros (q & node & Hq & Hnode & Hname). by eapply Hr.
Qed.

Lemma locate_node_by_name_first_witness :
  let st := mk_state [] [mk_node "lcell" "u1" [] []; mk_node "lcell" "u2" [] [];
                         mk_node "io" "u1" [] []]
              None None (Some [0; 1; 2]%nat) None (Some 2%nat) 1 [] in
  nodes_live st
  /\ exists r, locate_node_by_name "u1" st = Ok r
       /\ match r with
          | Some p =>
              exists (i : nat) node,
                [0; 1; 2]%nat !! i = Some p /\ node_store st !! p = Some node
                /\ node_name node = "u1"%string
                /\ forall j q nq, (j < i)%nat -> [0; 1; 2]%nat !! j = Some q ->
                     node_store st !! q = Some nq -> node_name nq <> "u1"%string
          | None => ~ node_named st [0; 1; 2]%nat "u1"
          end.
Proof.
  intros st.
  assert (Hlive : nodes_live st) by (repeat constructor; by eexists).
  split; [exact Hlive|]. exact (locate_node_by_name_first st "u1" Hlive).
Defined.

(** X9.  [add_node] leaves associations that are not whole multi-bit buses
    exactly as they are (in particular every association made by
    [create_node_port_association]); it appends the new node, with no
    parameters, at the end of the node list and makes it the most recently
    used node; and a lookup of the instance name then finds a node of that
    name, the new one when the name was not in use. *)
Theorem add_node_appends (st : state) (type name : string)
    (ports : list t_node_port_association) :
  Forall (explicit_association (pin_store st)) ports ->
  nodes_live st ->
  let new := length (node_store st) in
  let st' :=
    mk_state (pin_store st) (node_store st ++ [mk_node type name [] ports])
      (module_list st) (assignment_list st)
      (Some (default [] (node_list st) ++ [new])) (pin_list st) (Some new)
      (yylineno st) (console st) in
  add_node type name (Some ports) st = Ok st'
  /\ nodes_live st'
  /\ (exists q node,
        locate_node_by_name name st' = Ok (Some q)
        /\ node_store st' !! q = Some node /\ node_name node = name
        /\ (~ node_named st (default [] (node_list st)) name -> q = new))
  /\ (forall port_name port_index pin wire_index a,
        create_node_port_association (pin_store st) port_name port_index pin wire_index
        = Ok a -> explicit_association (pin_store st) a).
Proof.
  intros Hports Hlive new st'.
  assert (Hlive' : nodes_live st').
  { unfold nodes_live. cbn. apply Forall_app. split.
    - eapply Forall_impl; [exact Hlive|]. intros p [n Hn]. exists n.
      rewrite lookup_app_l; [done|]. by eapply lookup_lt_Some.
    - apply Forall_singleton. eexists. rewrite lookup_app_r by done.
      subst new. by rewrite Nat.sub_diag. }
  split; [|split; [done|split]].
  - unfold add_node. rewrite (expand_ports_explicit _ _ Hports _ 0) by lia.
    reflexivity.
  - assert (Hloc : exists r, locate_node_by_name name st' = Ok r
              /\ match r with
                 | Some p =>
                     exists (i : nat) node,
                       (default [] (node_list st) ++ [new]) !! i = Some p
                       /\ node_store st' !! p = Some node /\ node_name node = name
                       /\ forall j q nq, (j < i)%nat ->
                            (default [] (node_list st) ++ [new]) !! j = Some q ->
                            node_store st' !! q = Some nq -> node_name nq <> name
                 | None => ~ node_named st' (default [] (node_list st) ++ [new]) name
                 end).
    { destruct (scan_nodes_first _ name _ Hlive') as (r & Hrun & Hr).
      exists r. split; [exact Hrun|]. destruct r; [done|].
      intros (q & node & Hq & Hnode & Hname). by eapply Hr. }
    destruct Hloc as ([q|] & Hq & Hr).
    + destruct Hr as (i & node & Hi & Hnode & Hname & Hbefore).
      exists q, node. repeat split; try done. intros Hfresh.
      apply lookup_lt_Some in Hi as Hlt. rewrite length_app in Hlt. cbn in Hlt.
      destruct (decide (i < length (default [] (node_list st)))%nat) as [Hin|Hout].
      * destruct Hfresh. rewrite lookup_app_l in Hi by done.
        exists q, node. split; [by eapply list_elem_of_lookup_2|]. split; [|done].
        cbn in Hnode. rewrite lookup_app_l in Hnode; [done|].
        unfold nodes_live in Hlive. rewrite Forall_lookup in Hlive.
        destruct (Hlive _ _ Hi) as [n Hn]. by eapply lookup_lt_Some.
      * rewrite lookup_app_r in Hi by lia.
        replace (i - length (default [] (node_list st)))%nat with 0%nat in Hi by lia.
        cbn in Hi. congruence.
    + destruct Hr. exists new, (mk_node type name [] ports).
      split; [apply elem_of_app; right; by apply list_elem_of_singleton|].
      split; [|done]. cbn. rewrite lookup_app_r by done. subst new.
      by rewrite Nat.sub_diag.
  - intros. by eapply create_node_port_association_explicit.
Qed.

Lemma add_node_appends_witness :
  Forall (explicit_association (pin_store state_w)) [mk_assoc "in" 0 0%nat 1]
  /\ nodes_live state_w
  /\ add_node "lcell" "n1" (Some [mk_assoc "in" 0 0%nat 1]) state_w
     = Ok (mk_state [Some net_w] [mk_node "lcell" "n1" [] [mk_assoc "in" 0 0%nat 1]]
             None None (Some [0%nat]) (Some [0%nat]) (Some 0%nat) 1 []).
Proof.
  assert (Hports : Forall (explicit_association (pin_store state_w))
                     [mk_assoc "in" 0 0%nat 1]).
  { apply Forall_singleton. exists net_w. split; [reflexivity|]. right; left. done. }
  assert (Hlive : nodes_live state_w) by constructor.
  split; [exact Hports|]. split; [exact Hlive|].
  exact (proj1 (add_node_appends state_w "lcell" "n1" _ Hports Hlive)).
Defined.

Lemma define_instance_parameter_eval (st : state) (nodes : list ptr) (recent : ptr)
    (rn : t_node) (identifier : t_identifier_pass) (parameter_name : string)
    (string_arg : option string) (integer_arg : Z) :
  node_list st = Some nodes -> nodes_live st ->
  most_recently_used_node st = Some recent ->
  node_store st !! recent = Some rn ->
  exists target,
    (if decide (instance_name identifier = node_name rn) then target = Some recent
     else scan_nodes (node_store st) (instance_name identifier) nodes = Ok target)
    /\ define_instance_parameter identifier parameter_name string_arg integer_arg st
       = match target with
         | None => AssertFail
         | Some n =>
             Ok (set_node_store
                   (fun s => alter (add_parameter
                                      (parameter_of parameter_name string_arg integer_arg))
                               n s)
                   (set_most_recently_used_node (Some n) st))
         end.
Proof.
  intros Hlist Hlive Hrecent Hrn. unfold define_instance_parameter.
  fold (instance_name identifier).
  fold (parameter_of parameter_name string_arg integer_arg).
  rewrite Hrecent. unfold deref_node at 1. rewrite Hrn. cbn [rbind].
  unfold nodes_live in Hlive. rewrite Hlist in Hlive. cbn [default from_option id] in Hlive.
  destruct (strcmp (instance_name identifier) (node_name rn)) eqn:Hcmp.
  - apply strcmp_eq in Hcmp. exists (Some recent). rewrite decide_True by done.
    split; [done|]. cbn [rbind]. unfold deref_node. rewrite Hrn. cbn [rbind].
    do 2 f_equal. destruct st; cbn in *. by subst.
  - destruct (scan_nodes_first _ (instance_name identifier) _ Hlive) as (r & Hscan & Hr).
    exists r. rewrite decide_False by (intros He; by rewrite He, strcmp_refl in Hcmp).
    split; [done|]. unfold locate_node_by_name. rewrite Hlist, Hscan. cbn [rbind].
    destruct r as [n|]; [|done]. destruct Hr as (i & node & _ & Hnode & _).
    unfold deref_node. cbn. by rewrite Hnode.
  - destruct (scan_nodes_first _ (instance_name identifier) _ Hlive) as (r & Hscan & Hr).
    exists r. rewrite decide_False by (intros He; by rewrite He, strcmp_refl in Hcmp).
    split; [done|]. unfold locate_node_by_name. rewrite Hlist, Hscan. cbn [rbind].
    destruct r as [n|]; [|done]. destruct Hr as (i & node & _ & Hnode & _).
    unfold deref_node. cbn. by rewrite Hnode.
Qed.






(** X11.  When no two nodes of the list bear the same name and the most
    recently used node is one of the list, which node that is has no effect
    on [define_instance_parameter]: the result is the same whatever node of
    the list the cache holds. *)
Theorem cache_has_no_effect (st : state) (nodes : list ptr) (c1 c2 : ptr)
    (identifier : t_identifier_pass) (parameter_name : string)
    (string_arg : option string) (integer_arg : Z) :
  node_list st = Some nodes -> nodes_live st ->
  unique_node_names st nodes ->
  c1 ∈ nodes -> c2 ∈ nodes ->
  define_instance_parameter identifier parameter_name string_arg integer_arg
    (set_most_recently_used_node (Some c1) st)
  = define_instance_parameter identifier parameter_name string_arg integer_arg
      (set_most_recently_used_node (Some c2) st).
Proof.
  intros Hlist Hlive Huniq Hc1 Hc2.
  assert (Hlive' : Forall (fun p => is_Some (node_store st !! p)) nodes).
  { unfold nodes_live in Hlive. by rewrite Hlist in Hlive. }
  destruct (scan_nodes_first _ (instance_name identifier) _ Hlive') as (r & Hscan & Hr).
  enough (Hcanon : forall c, c ∈ nodes ->
            define_instance_parameter identifier parameter_name string_arg integer_arg
              (set_most_recently_used_node (Some c) st)
            = match r with
              | None => AssertFail
              | Some n =>
                  Ok (set_node_store
                        (fun s => alter (add_parameter
                                   (parameter_of parameter_name string_arg integer_arg))
                                    n s)
                        (set_most_recently_used_node (Some n) st))
              end)
    by by rewrite !Hcanon.
  intros c Hc. rewrite Forall_forall in Hlive'. destruct (Hlive' c Hc) as [rc Hrc].
  destruct (define_instance_parameter_eval
              (set_most_recently_used_node (Some c) st) nodes c rc identifier
              parameter_name string_arg integer_arg Hlist Hlive eq_refl Hrc)
    as (target & Htarget & ->).
  cbn [node_store set_most_recently_used_node] in Htarget.
  case_decide as Hhit.
  - subst target. destruct r as [n|].
    + destruct Hr as (i & node & Hi & Hnode & Hname & _).
      assert (n = c); [|by subst].
      apply (Huniq n c node rc); [by eapply list_elem_of_lookup_2|done..|congruence].
    + by destruct (Hr c rc).
  - assert (target = r) by congruence. by subst.
Qed.

Lemma cache_has_no_effect_witness :
  let st := mk_state [] [mk_node "lcell" "u1" [] []; mk_node "ram" "m[3]" [] []]
              None None (Some [0; 1]%nat) None None 1 [] in
  unique_node_names st [0; 1]%nat
  /\ define_instance_parameter (mk_ident "u1" false 0) "lut_mask" (Some "F0F0") 0
       (set_most_recently_used_node (Some 0%nat) st)
     = define_instance_parameter (mk_ident "u1" false 0) "lut_mask" (Some "F0F0") 0
         (set_most_recently_used_node (Some 1%nat) st).
Proof.
  intros st.
  assert (Hlive : nodes_live st) by (repeat constructor; by eexists).
  assert (Huniq : unique_node_names st [0; 1]%nat).
  { intros p q np nq Hp Hq Hnp Hnq Hname.
    rewrite !elem_of_cons, elem_of_nil in Hp, Hq.
    destruct Hp as [->|[->|[]]], Hq as [->|[->|[]]]; try done;
      cbn in Hnp, Hnq; injection Hnp as <-; injection Hnq as <-; discriminate. }
  split; [exact Huniq|].
  apply (cache_has_no_effect st [0; 1]%nat 0%nat 1%nat _ _ _ _ eq_refl Hlive Huniq);
    rewrite !elem_of_cons; auto.
Defined.

(** ** Assignments are only ever appended *)

Lemma expand_bus_grows (k : nat) (s_ptr : option ptr) (t : ptr) (tristated : bool)
    (c_ptr : option ptr) (control_bit constant : Z) (invert : bool) :
  forall (wire_index first_index : Z) (assignments r : list t_assign),
    expand_bus k wire_index first_index s_ptr t tristated c_ptr control_bit
      constant invert assignments = Ok r ->
    exists new,
      r = assignments ++ new /\ length new = k
      /\ Forall (fun a =>
                   source a = s_ptr /\ target a = t
                   /\ is_tristated a = tristated /\ tri_control a = c_ptr
                   /\ tri_control_index a = control_bit /\ value a = constant
                   /\ inversion_flag a = invert) new.
Proof.
  induction k as [|k IH]; intros wire_index first_index assignments r Hrun;
    cbn [expand_bus] in Hrun.
  - injection Hrun as <-. exists []. rewrite app_nil_r. by repeat constructor.
  - apply rbind_ok in Hrun as (next_index & _ & Hrun).
    apply rbind_ok in Hrun as (next_wire & _ & Hrun).
    apply IH in Hrun as (new & -> & Hlen & Hall).
    eexists (_ :: new). unfold append_array_element. rewrite <- app_assoc.
    split; [reflexivity|]. split; [cbn; lia|]. by constructor.
Qed.

(** X12.  A call of [add_assignment] that returns changes nothing but the
    assignment list, keeps every assignment that was there, in order, and
    appends at least one record; every appended record carries the source,
    target, tristate, control, constant and invert arguments of the call. *)
Theorem add_assignment_appends_only (s_ptr : option ptr) (source_bit : Z)
    (t_ptr : option ptr) (target_bit : Z) (tristated : bool) (c_ptr : option ptr)
    (control_bit constant : Z) (invert : bool) (st st' : state) :
  add_assignment s_ptr source_bit t_ptr target_bit tristated c_ptr control_bit
    constant invert st = Ok st' ->
  exists new,
    st' = set_assignment_list (Some (default [] (assignment_list st) ++ new)) st
    /\ new <> []
    /\ Forall (fun a =>
                 source a = s_ptr /\ Some (target a) = t_ptr
                 /\ is_tristated a = tristated /\ tri_control a = c_ptr
                 /\ tri_control_index a = control_bit /\ value a = constant
                 /\ inversion_flag a = invert) new.
Proof.
  unfold add_assignment, assert. intros H.
  destruct t_ptr as [t|]; [|discriminate].
  destruct (non_null c_ptr || negb tristated); [|discriminate].
  apply rbind_ok in H as ([[si smin] smax] & _ & H).
  apply rbind_ok in H as (p & _ & H).
  rewrite pin_bounds_min_max in H. cbn beta iota in H.
  apply rbind_ok in H as (lowest & _ & H).
  destruct (_ && _) in H; [|discriminate].
  apply rbind_ok in H as (u & _ & H).
  apply rbind_ok in H as (difference & _ & H).
  apply rbind_ok in H as (ti & _ & H).
  apply rbind_ok in H as (span & _ & H).
  destruct (_ || _) in H.
  - injection H as <-. eexists. split; [reflexivity|]. split; [done|].
    by apply Forall_singleton.
  - apply rbind_ok in H as (u' & _ & H).
    apply rbind_ok in H as (stop & Hstop & H).
    apply rbind_ok in H as (r & Hr & H). injection H as <-.
    apply as_int_inv in Hstop as [-> _].
    apply expand_bus_grows in Hr as (new & -> & Hlen & Hall).
    exists new. split; [reflexivity|]. split.
    + intros ->. cbn in Hlen. lia.
    + eapply Forall_impl; [exact Hall|]. intros a (? & <- & ?). done.
Qed.

Lemma add_assignment_appends_only_witness :
  exists new,
    set_assignment_list
      (Some [mk_assign (Some 0%nat) 0 1%nat 0 false None 0 (-1) true;
             mk_assign (Some 0%nat) 1 1%nat 1 false None 0 (-1) true;
             mk_assign (Some 0%nat) 2 1%nat 2 false None 0 (-1) true]) state_abc
    = set_assignment_list (Some (default [] (assignment_list state_abc) ++ new))
        state_abc
    /\ new <> []
    /\ Forall (fun a =>
                 source a = Some 0%nat /\ Some (target a) = Some 1%nat
                 /\ is_tristated a = false /\ tri_control a = None
                 /\ tri_control_index a = 0 /\ value a = -1
                 /\ inversion_flag a = true) new.
Proof.
  exact (add_assignment_appends_only (Some 0%nat) (-1) (Some 1%nat) (-1) false None
           0 (-1) true state_abc _ eq_refl).
Defined.

(** ** Binding one identifier to a port *)

(** X13.  [associate_identifier_with_port_name] on an identifier that names a
    multi-bit net as a whole (not bit-indexed) yields one association per bit
    of the net, the port bit indices counted down from [|left - right|] to 0
    and the net bit indices stepped from [left] to [right]; the port index
    passed in is not used.  A name of no known net yields [NULL]. *)
Theorem associate_whole_bus (st : state) (ident : t_identifier_pass)
    (port_name : string) (port_index : Z) (pin : ptr) (p : t_pin_def) :
  locate_net_by_name (ident_name ident) st = Ok (Some pin) ->
  pin_store st !! pin = Some (Some p) ->
  ident_indexed ident = false ->
  ~ scalar p ->
  associate_identifier_with_port_name ident port_name port_index st
  = Ok (Some (map (fun j : nat =>
                     mk_assoc port_name (width p - Z.of_nat j) pin
                       (if pin_right p <? pin_left p
                        then pin_left p - Z.of_nat j
                        else pin_left p + Z.of_nat j))
                (seq 0 (Z.to_nat (width p + 1)))))
  /\ forall other,
       locate_net_by_name (ident_name other) st = Ok None ->
       associate_identifier_with_port_name other port_name port_index st = Ok None.
Proof.
  intros Hloc Hp Hix Hbus. split.
  - by apply associate_whole_bus_expands.
  - intros other Hother. unfold associate_identifier_with_port_name.
    by rewrite Hother.
Qed.

Lemma associate_whole_bus_witness :
  ~ scalar net_b
  /\ associate_identifier_with_port_name (mk_ident "b" false 0) "d" 7 state_abc
     = Ok (Some [mk_assoc "d" 2 1%nat 2; mk_assoc "d" 1 1%nat 1;
                 mk_assoc "d" 0 1%nat 0]).
Proof.
  assert (Hbus : ~ scalar net_b) by discriminate.
  split; [exact Hbus|].
  exact (proj1 (associate_whole_bus state_abc (mk_ident "b" false 0) "d" 7 1%nat net_b
                  eq_refl eq_refl eq_refl Hbus)).
Defined.

(** ** Flattening a concatenation *)

Lemma net_to_port_loop_acc st con : forall acc,
  net_to_port_loop con st acc
  = let* flat := net_to_port_loop con st [] in Ok (acc ++ flat).
Proof.
  induction con as [|[source|] con IH]; intros acc; cbn [net_to_port_loop].
  - cbn. by rewrite app_nil_r.
  - destruct (locate_net_by_name (ident_name source) st) as [[pin|]| | |];
      cbn [rbind]; try done.
    + destruct (deref_pin (pin_store st) pin) as [p| | |]; cbn [rbind]; try done.
      destruct (_ && _).
      * rewrite (IH (identifiers_of_bus _ _ _ _ acc)),
          (IH (identifiers_of_bus _ _ _ _ [])).
        rewrite !identifiers_of_bus_app.
        destruct (net_to_port_loop con st []); cbn [rbind]; try done.
        by rewrite <- app_assoc.
      * rewrite (IH (append_array_element _ acc)), (IH (append_array_element _ [])).
        unfold append_array_element.
        destruct (net_to_port_loop con st []); cbn [rbind]; try done.
        by rewrite <- app_assoc.
    + rewrite (IH (append_array_element _ acc)), (IH (append_array_element _ [])).
      unfold append_array_element.
      destruct (net_to_port_loop con st []); cbn [rbind]; try done.
      by rewrite <- app_assoc.
  - rewrite (IH (append_array_element _ acc)), (IH (append_array_element _ [])).
    unfold append_array_element.
    destruct (net_to_port_loop con st []); cbn [rbind]; try done.
    by rewrite <- app_assoc.
Qed.

Lemma net_to_port_loop_app st con1 con2 : forall acc,
  net_to_port_loop (con1 ++ con2) st acc
  = let* flat := net_to_port_loop con1 st acc in net_to_port_loop con2 st flat.
Proof.
  induction con1 as [|[source|] con1 IH]; intros acc; cbn [net_to_port_loop app].
  - done.
  - destruct (locate_net_by_name (ident_name source) st) as [[pin|]| | |];
      cbn [rbind]; try done.
    destruct (deref_pin (pin_store st) pin) as [p| | |]; cbn [rbind]; try done.
    destruct (_ && _); apply IH.
  - apply IH.
Qed.

(** X14.  Flattening distributes over concatenation of the input: the
    flattened form of two groups put one after the other is the flattened
    form of the first followed by that of the second.  A [NULL] entry and a
    name of no known net each flatten to one [NULL] placeholder, and a
    multi-bit net named as a whole flattens to one bit-indexed identifier per
    bit, from [left] to [right]. *)
Theorem flatten_is_compositional (st : state)
    (con1 con2 : list (option t_identifier_pass)) :
  create_array_of_net_to_port_assignments (con1 ++ con2) st
  = (let* flat1 := create_array_of_net_to_port_assignments con1 st in
     let* flat2 := create_array_of_net_to_port_assignments con2 st in
     Ok (flat1 ++ flat2))
  /\ create_array_of_net_to_port_assignments [None] st = Ok [None]
  /\ (forall source,
        locate_net_by_name (ident_name source) st = Ok None ->
        create_array_of_net_to_port_assignments [Some source] st = Ok [None])
  /\ (forall source pin p,
        locate_net_by_name (ident_name source) st = Ok (Some pin) ->
        pin_store st !! pin = Some (Some p) ->
        ident_indexed source = false -> ~ scalar p ->
        create_array_of_net_to_port_assignments [Some source] st
        = Ok (map (fun j : nat =>
                     Some (mk_ident (pin_name p) true
                             (if pin_right p <? pin_left p
                              then pin_left p - Z.of_nat j
                              else pin_left p + Z.of_nat j)))
                (seq 0 (Z.to_nat (width p + 1))))).
Proof.
  unfold create_array_of_net_to_port_assignments. split; [|split; [|split]].
  - rewrite net_to_port_loop_app.
    destruct (net_to_port_loop con1 st []) as [flat1| | |]; cbn [rbind]; try done.
    apply net_to_port_loop_acc.
  - done.
  - intros source Hloc. cbn [net_to_port_loop]. by rewrite Hloc.
  - intros source pin p Hloc Hp Hix Hbus. cbn [net_to_port_loop].
    rewrite Hloc. cbn [rbind]. rewrite (deref_pin_live _ _ _ Hp). cbn [rbind].
    rewrite Hix. unfold scalar in Hbus.
    assert (Habs : my_abs (pin_left p - pin_right p) = width p).
    { unfold my_abs, width. destruct (Z.ltb_spec (pin_left p - pin_right p) 0); lia. }
    rewrite Habs. destruct (Z.ltb_spec 0 (width p)); [|unfold width in *; lia].
    cbn [andb negb]. rewrite identifiers_of_bus_app. cbn [app]. f_equal.
    apply map_ext. intros j. do 2 f_equal.
    destruct (pin_right p <? pin_left p); lia.
Qed.

Lemma flatten_is_compositional_witness :
  create_array_of_net_to_port_assignments
    ([Some (mk_ident "c" false 0)] ++ [Some (mk_ident "b" false 0)]) state_abc
  = Ok [Some (mk_ident "c" false 0); Some (mk_ident "b" true 2);
        Some (mk_ident "b" true 1); Some (mk_ident "b" true 0)].
Proof.
  rewrite (proj1 (flatten_is_compositional state_abc
                    [Some (mk_ident "c" false 0)] [Some (mk_ident "b" false 0)])).
  reflexivity.
Defined.

(** ** Concatenation assignments in general *)

Lemma bit_at_succ (down : bool) (start : Z) (j : nat) :
  (if down then bit_at down start j - 1 else bit_at down start j + 1)
  = bit_at down start (S j).
Proof. unfold bit_at. destruct down; lia. Qed.

Lemma bit_at_range (p : t_pin_def) (j : nat) :
  Z.of_nat j <= width p ->
  Z.min (pin_left p) (pin_right p)
  <= bit_at (pin_right p <? pin_left p) (pin_left p) j
  <= Z.max (pin_left p) (pin_right p).
Proof.
  unfold width, bit_at. destruct (Z.ltb_spec (pin_right p) (pin_left p)); lia.
Qed.

Lemma assign_wires_S (k : nat) (pin : ptr) (wire_index : Z) (down : bool)
    (target_pin : ptr) (target_wire_index : Z) (target_down : bool)
    (invert_wire : bool) (st : state) :
  assign_wires (S k) pin wire_index down target_pin target_wire_index target_down
    invert_wire st
  = let* st := add_assignment (Some pin) wire_index (Some target_pin)
                 target_wire_index false None 0 (-1) invert_wire st in
    assign_wires k pin (if down then wire_index - 1 else wire_index + 1) down
      target_pin (if target_down then target_wire_index - 1 else target_wire_index + 1)
      target_down invert_wire st.
Proof. reflexivity. Qed.

Lemma assign_wires_walk (pin : ptr) (src : t_pin_def) (target_pin : ptr)
    (tgt : t_pin_def) (invert : bool) :
  bounds_fit src -> bounds_fit tgt ->
  ~ scalar tgt ->
  forall (k j0 : nat) (st : state),
    pin_store st !! pin = Some (Some src) ->
    pin_store st !! target_pin = Some (Some tgt) ->
    Z.of_nat (j0 + k) <= width src ->
    Z.of_nat (j0 + k) <= width tgt ->
    assign_wires (S k) pin (bit_at (pin_right src <? pin_left src) (pin_left src) j0)
      (pin_right src <? pin_left src) target_pin
      (bit_at (pin_right tgt <? pin_left tgt) (pin_left tgt) j0)
      (pin_right tgt <? pin_left tgt) invert st
    = Ok (bit_at (pin_right tgt <? pin_left tgt) (pin_left tgt) (j0 + S k),
          set_assignment_list
            (Some (default [] (assignment_list st) ++
                   map (concatenated pin src target_pin tgt invert) (seq j0 (S k))))
            st).
Proof.
  intros Hfs Hft Hbus.
  assert (Hstep : forall (j0 : nat) (st : state),
            pin_store st !! pin = Some (Some src) ->
            pin_store st !! target_pin = Some (Some tgt) ->
            Z.of_nat j0 <= width src -> Z.of_nat j0 <= width tgt ->
            add_assignment (Some pin)
              (bit_at (pin_right src <? pin_left src) (pin_left src) j0)
              (Some target_pin)
              (bit_at (pin_right tgt <? pin_left tgt) (pin_left tgt) j0)
              false None 0 (-1) invert st
            = Ok (set_assignment_list
                    (Some (default [] (assignment_list st) ++
                           [concatenated pin src target_pin tgt invert j0])) st)).
  { intros j0 st Hsrc Htgt Hs Ht.
    pose proof (bit_at_range src j0 Hs). pose proof (bit_at_range tgt j0 Ht).
    rewrite (add_assignment_single st (Some pin) (Some src) target_pin tgt None None).
    - unfold concatenated, recorded_source_index, recorded_target_index.
      by rewrite (decide_False (P := scalar tgt)).
    - exact Hsrc.
    - exact Htgt.
    - exact I.
    - exact Hfs.
    - exact Hft.
    - exact I.
    - unfold in_window. lia.
    - right. unfold in_window. lia.
    - intros ?. discriminate.
    - left. split; [done|]. unfold whole_net. lia. }
  induction k as [|k IH]; intros j0 st Hsrc Htgt Hks Hkt.
  - cbn [assign_wires]. rewrite Hstep by (done || lia). cbn [rbind].
    rewrite bit_at_succ. by replace (j0 + 1)%nat with (S j0) by lia.
  - rewrite assign_wires_S, Hstep by (done || lia). cbn [rbind].
    rewrite !bit_at_succ.
    rewrite (IH (S j0)) by (done || lia).
    replace (S j0 + S k)%nat with (j0 + S (S k))%nat by lia.
    do 2 f_equal. unfold set_assignment_list. cbn.
    rewrite <- app_assoc. done.
Qed.

(** X15.  Concatenating one net into a multi-bit target that is at least as
    wide, the bounds of both nets leaving room for the [int] arithmetic
    [min - 1], [max + 1] and [max - min]: whatever bit index the identifier
    carries, every bit of the source net is assigned, source and target both
    walked from [left] toward [right], one Assignment per source bit appended
    in that order.  A source name of no known net is not treated as a stub
    here: the lookup result is dereferenced unchecked. *)
Theorem concatenation_of_one_net (st : state) (source : t_identifier_pass)
    (pin : ptr) (src : t_pin_def) (target_pin : ptr) (tgt : t_pin_def)
    (invert : bool) :
  locate_net_by_name (ident_name source) st = Ok (Some pin) ->
  pin_store st !! pin = Some (Some src) ->
  pin_store st !! target_pin = Some (Some tgt) ->
  bounds_fit src -> bounds_fit tgt ->
  ~ scalar tgt ->
  width src <= width tgt ->
  add_concatenation_assignments [Some source] (Some target_pin) invert st
  = Ok (set_assignment_list
          (Some (default [] (assignment_list st) ++
                 map (concatenated pin src target_pin tgt invert)
                   (seq 0 (Z.to_nat (width src + 1))))) st)
  /\ forall other,
       locate_net_by_name (ident_name other) st = Ok None ->
       add_concatenation_assignments [Some other] (Some target_pin) invert st = Fault.
Proof.
  intros Hloc Hsrc Htgt Hfs Hft Hbus Hwide. split.
  - unfold add_concatenation_assignments. rewrite (deref_pin_live _ _ _ Htgt).
    cbn [rbind concatenation_loop]. rewrite Hloc. cbn [rbind].
    rewrite (deref_pin_live _ _ _ Hsrc). cbn [rbind].
    assert (Hk : Z.to_nat ((if pin_right src <? pin_left src
                            then pin_left src - pin_right src
                            else pin_right src - pin_left src) + 1)
                 = S (Z.to_nat (width src))).
    { unfold width. destruct (Z.ltb_spec (pin_right src) (pin_left src)); lia. }
    rewrite Hk.
    assert (Hw : 0 <= width src) by (unfold width; lia).
    pose proof (assign_wires_walk pin src target_pin tgt invert Hfs Hft Hbus
                  (Z.to_nat (width src)) 0 st Hsrc Htgt ltac:(lia) ltac:(lia)) as Hrun.
    unfold bit_at at 1 2 in Hrun.
    replace (if pin_right src <? pin_left src then pin_left src - Z.of_nat 0
             else pin_left src + Z.of_nat 0) with (pin_left src) in Hrun
      by (destruct (pin_right src <? pin_left src); lia).
    replace (if pin_right tgt <? pin_left tgt then pin_left tgt - Z.of_nat 0
             else pin_left tgt + Z.of_nat 0) with (pin_left tgt) in Hrun
      by (destruct (pin_right tgt <? pin_left tgt); lia).
    rewrite Hrun. cbn [rbind].
    by replace (Z.to_nat (width src + 1)) with (S (Z.to_nat (width src))) by lia.
  - intros other Hother. unfold add_concatenation_assignments.
    rewrite (deref_pin_live _ _ _ Htgt). cbn [rbind concatenation_loop].
    by rewrite Hother.
Qed.

Lemma concatenation_of_one_net_witness :
  bounds_fit net_b /\ bounds_fit net_a
  /\ ~ scalar net_a /\ width net_b <= width net_a
  /\ add_concatenation_assignments [Some (mk_ident "b" true 1)] (Some 0%nat) true
       state_abc
     = Ok (set_assignment_list
             (Some [mk_assign (Some 1%nat) 2 0%nat 3 false None 0 (-1) true;
                    mk_assign (Some 1%nat) 1 0%nat 2 false None 0 (-1) true;
                    mk_assign (Some 1%nat) 0 0%nat 1 false None 0 (-1) true])
             state_abc).
Proof.
  assert (Hfb : bounds_fit net_b) by by_computation.
  assert (Hfa : bounds_fit net_a) by by_computation.
  assert (Hbus : ~ scalar net_a) by discriminate.
  assert (Hwide : width net_b <= width net_a) by (vm_compute; discriminate).
  split; [exact Hfb|]. split; [exact Hfa|]. split; [exact Hbus|]. split; [exact Hwide|].
  exact (proj1 (concatenation_of_one_net state_abc (mk_ident "b" true 1) 1%nat net_b
                  0%nat net_a true eq_refl eq_refl eq_refl Hfb Hfa Hbus Hwide)).
Defined.

(** ** Binding a single wire to a port *)

Lemma create_node_port_association_out_of_range store port_name port_index pin p w :
  store !! pin = Some (Some p) ->
  ~ Z.min (pin_left p) (pin_right p) <= w <= Z.max (pin_left p) (pin_right p) ->
  create_node_port_association store port_name port_index pin w = AssertFail.
Proof.
  intros Hp Hw. unfold create_node_port_association, assert.
  rewrite (deref_pin_live _ _ _ Hp). cbn [rbind].
  destruct (Z.leb_spec (pin_left p) w), (Z.leb_spec w (pin_right p)),
    (Z.leb_spec (pin_right p) w), (Z.leb_spec w (pin_left p)); cbn; (done || lia).
Qed.

(** X16.  [associate_identifier_with_port_name] on a bit-indexed identifier
    of a known net, or on an identifier that names a one-bit net: the result
    is exactly one association, of the port name and port index passed in
    with the named bit (for a one-bit net named as a whole, its only bit,
    [left]).  The bit index of an indexed identifier is checked against the
    declared range of the net, and an index outside it is a failed
    assertion, not a [NULL] result. *)
Theorem associate_single_wire (st : state) (ident : t_identifier_pass)
    (port_name : string) (port_index : Z) (pin : ptr) (p : t_pin_def) :
  locate_net_by_name (ident_name ident) st = Ok (Some pin) ->
  pin_store st !! pin = Some (Some p) ->
  ident_indexed ident = true \/ scalar p ->
  associate_identifier_with_port_name ident port_name port_index st
  = if ident_indexed ident then
      if decide (Z.min (pin_left p) (pin_right p) <= ident_index ident
                 <= Z.max (pin_left p) (pin_right p))
      then Ok (Some [mk_assoc port_name port_index pin (ident_index ident)])
      else AssertFail
    else Ok (Some [mk_assoc port_name port_index pin (pin_left p)]).
Proof.
  intros Hloc Hp Hkind. unfold associate_identifier_with_port_name.
  rewrite Hloc. cbn [rbind]. rewrite (deref_pin_live _ _ _ Hp). cbn [rbind].
  destruct (ident_indexed ident) eqn:Hix.
  - case_decide as Hin.
    + by rewrite (create_node_port_association_in_range _ _ _ _ p).
    + by rewrite (create_node_port_association_out_of_range _ _ _ _ p).
  - destruct Hkind as [?|Hs]; [done|]. unfold scalar in Hs.
    destruct (Z.eqb_spec (pin_left p - pin_right p) 0); [|lia].
    rewrite (create_node_port_association_in_range _ _ _ _ p) by (done || lia).
    done.
Qed.

Lemma associate_single_wire_witness :
  (true = true \/ scalar net_a)
  /\ associate_identifier_with_port_name (mk_ident "a" true 2) "d" 7 state_abc
     = Ok (Some [mk_assoc "d" 7 0%nat 2])
  /\ associate_identifier_with_port_name (mk_ident "a" true 4) "d" 7 state_abc
     = AssertFail
  /\ associate_identifier_with_port_name (mk_ident "c" false 0) "d" 7 state_abc
     = Ok (Some [mk_assoc "d" 7 2%nat 0]).
Proof.
  split; [by left|]. split; [|split].
  - exact (associate_single_wire state_abc (mk_ident "a" true 2) "d" 7 0%nat net_a
             eq_refl eq_refl (or_introl eq_refl)).
  - exact (associate_single_wire state_abc (mk_ident "a" true 4) "d" 7 0%nat net_a
             eq_refl eq_refl (or_introl eq_refl)).
  - exact (associate_single_wire state_abc (mk_ident "c" false 0) "d" 7 2%nat net_c
             eq_refl eq_refl (or_intror eq_refl)).
Defined.

(** ** Declaring a list of nets *)

Lemma names_of_alter store ix p net_list names :
  names_of store net_list names ->
  names_of (alter (set_indexed ix) p store) net_list names.
Proof.
  intros H. eapply Forall2_impl; [exact H|].
  intros q n (pin & Hq & Hn). unfold ptr in *.
  destruct (decide (q = p)) as [->|Hne].
  - eexists. rewrite list_lookup_alter_eq, Hq. split; [reflexivity|done].
  - exists pin. by rewrite list_lookup_alter_ne.
Qed.

Lemma names_of_unique store net_list names q1 q2 pin1 pin2 :
  names_of store net_list names -> StronglySorted str_lt names ->
  q1 ∈ net_list -> q2 ∈ net_list ->
  store !! q1 = Some (Some pin1) -> store !! q2 = Some (Some pin2) ->
  pin_name pin1 = pin_name pin2 -> q1 = q2.
Proof.
  intros Hn Hs [i Hi]%list_elem_of_lookup_1 [j Hj]%list_elem_of_lookup_1 H1 H2 Heq.
  destruct (Forall2_lookup_l _ _ _ _ _ Hn Hi) as (n1 & Hn1 & pin1' & Hp1 & <-).
  destruct (Forall2_lookup_l _ _ _ _ _ Hn Hj) as (n2 & Hn2 & pin2' & Hp2 & <-).
  assert (pin1' = pin1) as -> by congruence.
  assert (pin2' = pin2) as -> by congruence.
  rewrite <- Heq in Hn2. assert (i = j) as -> by by eapply sorted_lookup_inj.
  congruence.
Qed.

Lemma names_of_elem store net_list names q pin :
  names_of store net_list names -> q ∈ net_list ->
  store !! q = Some (Some pin) -> pin_name pin ∈ names.
Proof.
  intros Hn [i Hi]%list_elem_of_lookup_1 Hq.
  destruct (Forall2_lookup_l _ _ _ _ _ Hn Hi) as (n & Hni & pin' & Hp & <-).
  assert (pin' = pin) as -> by congruence. by eapply list_elem_of_lookup_2.
Qed.

Lemma create_pins_step (identifier : t_identifier_pass) (rest : list t_identifier_pass)
    (left_bound right_bound : Z) (type : t_pin_def_type) (indexed : bool)
    (st : state) (names : list string) :
  index_ok st names ->
  exists st1 names1,
    create_pins_from_list (identifier :: rest) left_bound right_bound type indexed st
    = create_pins_from_list rest left_bound right_bound type indexed st1
    /\ index_ok st1 names1
    /\ (forall n, n ∈ names1 <-> n = ident_name identifier \/ n ∈ names)
    /\ (forall q pin, q ∈ default [] (pin_list st) ->
          pin_store st !! q = Some (Some pin) ->
          q ∈ default [] (pin_list st1)
          /\ pin_store st1 !! q
             = Some (if decide (pin_name pin = ident_name identifier)
                     then set_indexed indexed (Some pin) else Some pin))
    /\ ((ident_name identifier ∉ names) ->
        exists q, q ∈ default [] (pin_list st1)
          /\ pin_store st1 !! q
             = Some (Some (mk_pin (ident_name identifier) left_bound right_bound type
                             indexed))).
Proof.
  intros Hok. pose proof Hok as [Hnames Hsorted].
  set (name := ident_name identifier).
  destruct (add_pin_spec st names name left_bound right_bound type Hok)
    as [(i & p & Hi & Hp & Hrun)|(Hnot & i & Hi & Hrun & Hs)].
  - (* the name is declared already *)
    destruct (Forall2_lookup_l _ _ _ _ _ Hnames Hp) as (n & Hn & first & Hfirst & Hname).
    assert (n = name) as -> by congruence.
    assert (Hlive : pin_store (after_duplicate name st) !! p = Some (Some first)).
    { cbn. rewrite lookup_app_l; [done|]. by eapply lookup_lt_Some. }
    exists (set_pin_store (fun s => alter (set_indexed indexed) p s)
              (after_duplicate name st)), names.
    split; [|split; [|split; [|split]]].
    + cbn [create_pins_from_list]. fold name. rewrite Hrun. cbn [rbind].
      by rewrite (deref_pin_live _ _ _ Hlive).
    + split; [|done]. cbn. apply names_of_alter. by apply names_of_grow.
    + intros n. split; [auto|]. intros [->|?]; [|done].
      by eapply list_elem_of_lookup_2.
    + intros q pin Hq Hpin. split; [done|]. cbn.
      assert (Hq' : (pin_store st ++ [None]) !! q = Some (Some pin)).
      { rewrite lookup_app_l; [done|]. by eapply lookup_lt_Some. }
      destruct (decide (q = p)) as [->|Hne].
      * unfold ptr in *. assert (pin = first) as -> by congruence.
        rewrite list_lookup_alter_eq, Hq'. by rewrite decide_True.
      * unfold ptr in *.
        rewrite list_lookup_alter_ne, Hq' by done. rewrite decide_False; [done|].
        intros Heq. apply Hne.
        eapply (names_of_unique _ _ _ q p pin first Hnames Hsorted); try done.
        -- by eapply list_elem_of_lookup_2.
        -- congruence.
    + intros Hfresh. destruct Hfresh. by eapply list_elem_of_lookup_2.
  - (* the name is new *)
    set (p := length (pin_store st)) in *.
    set (st0 := after_insert name left_bound right_bound type i st) in *.
    assert (Hlive : pin_store st0 !! p
                    = Some (Some (mk_pin name left_bound right_bound type
                                    (negb (left_bound =? right_bound))))).
    { cbn. rewrite lookup_app_r by done. subst p. by rewrite Nat.sub_diag. }
    exists (set_pin_store (fun s => alter (set_indexed indexed) p s) st0),
      (take i names ++ name :: drop i names).
    split; [|split; [|split; [|split]]].
    + cbn [create_pins_from_list]. fold name. rewrite Hrun. cbn [rbind].
      by rewrite (deref_pin_live _ _ _ Hlive).
    + destruct (index_ok_after_insert st names name left_bound right_bound type i Hok Hs)
        as [Hn0 Hs0].
      split; [|done]. cbn. apply names_of_alter. exact Hn0.
    + intros n. rewrite elem_of_app, elem_of_cons.
      assert (Hsplit : n ∈ names <-> n ∈ take i names \/ n ∈ drop i names)
        by by rewrite <- elem_of_app, take_drop.
      tauto.
    + intros q pin Hq Hpin. apply lookup_lt_Some in Hpin as Hlt. split.
      * cbn. rewrite <- (take_drop i (default [] (pin_list st))) in Hq.
        rewrite elem_of_app in Hq. rewrite elem_of_app, elem_of_cons. tauto.
      * cbn. unfold ptr in *. rewrite list_lookup_alter_ne by (subst p; lia).
        rewrite lookup_app_l by done. rewrite Hpin, decide_False; [done|].
        intros Heq. apply Hnot. rewrite <- Heq. by eapply names_of_elem.
    + intros _. exists p. split.
      * cbn. rewrite elem_of_app, elem_of_cons. auto.
      * change (pin_store (set_pin_store _ st0))
          with (alter (set_indexed indexed) p (pin_store st0)).
        by rewrite list_lookup_alter_eq, Hlive.
Qed.

(** X17.  [create_pins_from_list] on a state whose net index is sorted:
    the call succeeds and the index stays sorted and holds the old names
    and the listed ones; a listed name that was not declared before becomes
    a net with the bounds, the type and the [indexed] flag passed in; a net
    that was declared before and is listed again keeps its place, bounds and
    type but has its [indexed] flag overwritten with the one passed in; and
    the nets that are not listed are left as they were. *)
Theorem create_pins_from_list_declares (list_of_pins : list t_identifier_pass)
    (left_bound right_bound : Z) (type : t_pin_def_type) (indexed : bool)
    (st : state) (names : list string) :
  index_ok st names ->
  exists st' names',
    create_pins_from_list list_of_pins left_bound right_bound type indexed st = Ok st'
    /\ index_ok st' names'
    /\ (forall n, n ∈ names' <-> n ∈ map ident_name list_of_pins \/ n ∈ names)
    /\ (forall q pin, q ∈ default [] (pin_list st) ->
          pin_store st !! q = Some (Some pin) ->
          q ∈ default [] (pin_list st')
          /\ pin_store st' !! q
             = Some (if decide (pin_name pin ∈ map ident_name list_of_pins)
                     then set_indexed indexed (Some pin) else Some pin))
    /\ (forall n, n ∈ map ident_name list_of_pins -> (n ∉ names) ->
          exists q, q ∈ default [] (pin_list st')
            /\ pin_store st' !! q
               = Some (Some (mk_pin n left_bound right_bound type indexed))).
Proof.
  revert st names. induction list_of_pins as [|identifier rest IH]; intros st names Hok.
  - exists st, names. split; [done|]. split; [done|]. cbn [map]. split; [|split].
    + intros n. rewrite elem_of_nil. tauto.
    + intros q pin Hq Hpin. split; [done|]. rewrite decide_False; [done|].
      by intros ?%elem_of_nil.
    + by intros n ?%elem_of_nil.
  - destruct (create_pins_step identifier rest left_bound right_bound type indexed
                st names Hok) as (st1 & names1 & -> & Hok1 & Hnames1 & Hold1 & Hnew1).
    destruct (IH st1 names1 Hok1) as (st' & names' & Hrun & Hok' & Hnames' & Hold' & Hnew').
    exists st', names'. split; [done|]. split; [done|]. cbn [map]. split; [|split].
    + intros n. rewrite Hnames', Hnames1, elem_of_cons. tauto.
    + intros q pin Hq Hpin. destruct (Hold1 q pin Hq Hpin) as [Hq1 Hpin1].
      destruct (decide (pin_name pin = ident_name identifier)) as [Heq|Hne].
      * cbn [set_indexed] in Hpin1.
        destruct (Hold' q _ Hq1 Hpin1) as [Hq' Hpin']. split; [done|].
        rewrite Hpin'. cbn [pin_name].
        rewrite (decide_True (P := pin_name pin ∈ _ :: _))
          by (rewrite elem_of_cons; auto).
        cbn. by destruct (decide _).
      * destruct (Hold' q _ Hq1 Hpin1) as [Hq' Hpin']. split; [done|].
        rewrite Hpin'. destruct (decide (pin_name pin ∈ map ident_name rest)).
        -- by rewrite decide_True by (rewrite elem_of_cons; auto).
        -- rewrite decide_False; [done|]. rewrite elem_of_cons. tauto.
    + intros n Hn Hfresh. apply elem_of_cons in Hn as [->|Hn].
      * destruct (Hnew1 Hfresh) as (q & Hq & Hpin).
        destruct (Hold' q _ Hq Hpin) as [Hq' Hpin']. exists q. split; [done|].
        rewrite Hpin'. cbn. by destruct (decide _).
      * destruct (decide (n = ident_name identifier)) as [->|Hne].
        -- destruct (Hnew1 Hfresh) as (q & Hq & Hpin).
           destruct (Hold' q _ Hq Hpin) as [Hq' Hpin']. exists q. split; [done|].
           rewrite Hpin'. cbn. by destruct (decide _).
        -- apply Hnew'; [done|]. rewrite Hnames1. tauto.
Qed.

Lemma create_pins_from_list_declares_witness :
  index_ok state_w ["w"%string]
  /\ exists st',
       create_pins_from_list [mk_ident "w" false 0; mk_ident "v" false 0] 5 2 PIN_INPUT
         false state_w = Ok st'
       /\ pin_store st' !! 0%nat = Some (Some (mk_pin "w" 1 0 PIN_WIRE false))
       /\ exists q, pin_store st' !! q = Some (Some (mk_pin "v" 5 2 PIN_INPUT false)).
Proof.
  assert (Hok : index_ok state_w ["w"%string]).
  { split; [|repeat constructor]. repeat constructor. by exists net_w. }
  split; [exact Hok|].
  destruct (create_pins_from_list_declares
              [mk_ident "w" false 0; mk_ident "v" false 0] 5 2 PIN_INPUT false
              state_w ["w"%string] Hok)
    as (st' & names' & Hrun & _ & _ & Hold & Hnew).
  exists st'. split; [exact Hrun|]. split.
  - exact (proj2 (Hold 0%nat net_w ltac:(by apply list_elem_of_singleton) eq_refl)).
  - destruct (Hnew "v"%string) as (q & _ & Hq).
    + cbn. rewrite !elem_of_cons. auto.
    + intros [=]%list_elem_of_singleton.
    + by exists q.
Defined.

(** ** Nets of a module that has ended *)

Lemma add_pin_above (base : nat) (st : state) (names : list string) (name : string)
    (left_bound right_bound : Z) (type : t_pin_def_type) (p : ptr) (st' : state) :
  index_ok st names ->
  (base <= length (pin_store st))%nat ->
  Forall (fun q : ptr => (base <= q)%nat) (default [] (pin_list st)) ->
  add_pin name left_bound right_bound type st = Ok (p, st') ->
  (base <= length (pin_store st'))%nat
  /\ Forall (fun q : ptr => (base <= q)%nat) (default [] (pin_list st'))
  /\ take base (pin_store st') = take base (pin_store st).
Proof.
  intros Hok Hbase Habove Hrun.
  destruct (add_pin_spec st names name left_bound right_bound type Hok)
    as [(i & p' & Hi & Hp & Hrun')|(Hnot & i & Hi & Hrun' & Hs)];
    rewrite Hrun' in Hrun; injection Hrun as <- <-; cbn.
  - rewrite length_app. split; [lia|]. split; [done|]. by rewrite take_app_le.
  - rewrite length_app. split; [lia|]. split; [|by rewrite take_app_le].
    apply Forall_app. split; [by apply Forall_take|].
    constructor; [done|by apply Forall_drop].
Qed.

Lemma declare_all_above (base : nat) (decls : list declaration) :
  forall (st : state) (names : list string) (st' : state),
    index_ok st names ->
    (base <= length (pin_store st))%nat ->
    Forall (fun q : ptr => (base <= q)%nat) (default [] (pin_list st)) ->
    declare_all decls st = Ok st' ->
    Forall (fun q : ptr => (base <= q)%nat) (default [] (pin_list st'))
    /\ take base (pin_store st') = take base (pin_store st).
Proof.
  induction decls as [|[[[name left_bound] right_bound] type] decls IH];
    intros st names st' Hok Hbase Habove Hrun.
  - injection Hrun as <-. done.
  - cbn [declare_all] in Hrun.
    destruct (add_pin_total st names name left_bound right_bound type Hok)
      as (p & st1 & names1 & Hrun1 & Hok1 & _).
    rewrite Hrun1 in Hrun. cbn [rbind] in Hrun.
    destruct (add_pin_above base st names name left_bound right_bound type p st1
                Hok Hbase Habove Hrun1) as (Hbase1 & Habove1 & Htake1).
    destruct (IH st1 names1 st' Hok1 Hbase1 Habove1 Hrun) as [Habove' Htake'].
    split; [done|]. by rewrite Htake'.
Qed.

(** X18.  Once the net index has been handed over ([pin_list] is [NULL], as
    after [add_module]), the nets declared before can no longer be reached by
    name: declarations start a new index, every name declared from then on is
    found, every pin a lookup returns is a block allocated after the
    hand-over and bears a name declared after it, and the blocks of the
    earlier nets are left untouched.  So a name that an earlier module used
    is a new net in the next one, not a duplicate declaration. *)
Theorem declarations_start_afresh (st : state) (decls : list declaration) :
  pin_list st = None ->
  exists st',
    declare_all decls st = Ok st'
    /\ take (length (pin_store st)) (pin_store st') = pin_store st
    /\ (forall n, n ∈ map declared_name decls ->
          exists p, locate_net_by_name n st' = Ok (Some p))
    /\ (forall n p, locate_net_by_name n st' = Ok (Some p) ->
          (length (pin_store st) <= p)%nat /\ n ∈ map declared_name decls).
Proof.
  intros Hnull.
  assert (Hok : index_ok st []) by (split; [rewrite Hnull|]; constructor).
  destruct (declare_all_total decls st [] Hok)
    as (st' & names' & Hrun & Hok' & Hlist' & Hnames' & _).
  destruct (declare_all_above (length (pin_store st)) decls st [] st' Hok
              ltac:(lia) ltac:(rewrite Hnull; constructor) Hrun) as [Habove Htake].
  exists st'. split; [done|]. split; [by rewrite Htake, firstn_all|].
  assert (Hin : forall n, n ∈ names' <-> n ∈ map declared_name decls).
  { intros n. rewrite Hnames', elem_of_nil. tauto. }
  destruct Hok' as [Hn' Hs']. split.
  - intros n Hn. destruct (pin_list st') as [net_list|] eqn:Hlist.
    2:{ destruct Hlist'; [|done]. left. intros ->. by apply elem_of_nil in Hn. }
    destruct (locate_net_by_name_spec st' net_list names' n) as ([p|] & Hloc & Hans).
    { done. }
    + by exists p.
    + apply Hin in Hn. apply list_elem_of_lookup_1 in Hn as [i Hi].
      cbn in Hn'.
      destruct (Forall2_lookup_r _ _ _ _ _ Hn' Hi) as (q & Hq & pin & Hpin & Hname).
      destruct (Hans q pin); [by eapply list_elem_of_lookup_2|done..].
  - intros n p Hloc. destruct (pin_list st') as [net_list|] eqn:Hlist.
    2:{ unfold locate_net_by_name in Hloc. by rewrite Hlist in Hloc. }
    cbn in Habove, Hn'.
    destruct (locate_net_by_name_spec st' net_list names' n) as (r & Hloc' & Hans).
    { done. }
    rewrite Hloc in Hloc'. injection Hloc' as <-.
    destruct Hans as (Hp & (pin & Hpin & Hname) & _). split.
    + rewrite Forall_forall in Habove. by apply Habove.
    + apply Hin. rewrite <- Hname. by eapply names_of_elem.
Qed.

Lemma declarations_start_afresh_witness :
  pin_list (finalize_module "top" state_w) = None
  /\ exists st',
       declare_all [("w"%string, 7, 0, PIN_INPUT)] (finalize_module "top" state_w)
       = Ok st'
       /\ take 1 (pin_store st') = [Some net_w]
       /\ exists p, locate_net_by_name "w" st' = Ok (Some p) /\ (1 <= p)%nat.
Proof.
  split; [reflexivity|].
  destruct (declarations_start_afresh (finalize_module "top" state_w)
              [("w"%string, 7, 0, PIN_INPUT)] eq_refl)
    as (st' & Hrun & Htake & Hfound & Habove).
  exists st'. split; [exact Hrun|]. split; [exact Htake|].
  destruct (Hfound "w"%string) as [p Hp].
  { apply list_elem_of_singleton. reflexivity. }
  exists p. split; [exact Hp|]. exact (proj1 (Habove _ _ Hp)).
Defined.

(** ** The position the binary search returns *)

Lemma filter_all {A} (P : A -> Prop) `{!forall x, Decision (P x)} (l : list A) :
  Forall P l -> filter P l = l.
Proof.
  induction 1 as [|x l Hx Hl IH]; [done|].
  by rewrite filter_cons_True, IH.
Qed.

Lemma filter_none {A} (P : A -> Prop) `{!forall x, Decision (P x)} (l : list A) :
  Forall (fun x => ~ P x) l -> filter P l = [].
Proof.
  induction 1 as [|x l Hx Hl IH]; [done|].
  by rewrite filter_cons_False, IH.
Qed.

(** X19.  On a sorted index [find_position_for_net_in_array] returns the
    number of names in the index that sort strictly before the name searched
    for: the position of the name when the index holds it, and otherwise the
    one position at which inserting it keeps the index sorted. *)
Theorem find_position_counts_smaller_names (store : list (option t_pin_def))
    (net_list : list ptr) (names : list string) (name : string) :
  names_of store net_list names ->
  StronglySorted str_lt names ->
  exists p : nat,
    find_position_for_net_in_array store name net_list = Ok (Z.of_nat p)
    /\ p = length (filter (fun n => str_lt n name) names)
    /\ (name ∈ names -> names !! p = Some name)
    /\ ((name ∉ names) ->
        StronglySorted str_lt (take p names ++ name :: drop p names)).
Proof.
  intros Hnames Hsorted.
  destruct (find_position_spec store net_list names name Hnames Hsorted)
    as (p & Hrun & Hp & Hbelow & Habove).
  exists p. split; [exact Hrun|].
  assert (Hrest : Forall (fun n => ~ str_lt n name) (drop p names)).
  { destruct Habove as [Hat|Hafter].
    - rewrite (drop_S _ _ _ Hat). constructor; [apply str_lt_irrefl|].
      rewrite Forall_forall. intros n Hn. apply str_lt_asym.
      apply list_elem_of_lookup_1 in Hn as [j Hj]. rewrite lookup_drop in Hj.
      apply (sorted_lookup_lt names p (S p + j)); [done|lia|done..].
    - eapply Forall_impl; [exact Hafter|]. intros n Hn. by apply str_lt_asym. }
  split; [|split].
  - rewrite <- (take_drop p names) at 1. rewrite filter_app.
    rewrite (filter_all _ _ Hbelow), (filter_none _ _ Hrest), app_nil_r.
    rewrite length_take. lia.
  - intros Hin. destruct Habove as [Hat|Hafter]; [done|].
    destruct (not_in_split names name p Hbelow Hafter Hin).
  - intros Hnot. destruct Habove as [Hat|Hafter].
    + destruct Hnot. by eapply list_elem_of_lookup_2.
    + by apply sorted_splice.
Qed.

Lemma find_position_counts_smaller_names_witness :
  names_of (pin_store state_abc) [0; 1; 2]%nat ["a"; "b"; "c"]%string
  /\ StronglySorted str_lt ["a"; "b"; "c"]%string
  /\ find_position_for_net_in_array (pin_store state_abc) "b" [0; 1; 2]%nat = Ok 1
  /\ find_position_for_net_in_array (pin_store state_abc) "bb" [0; 1; 2]%nat = Ok 2.
Proof.
  assert (Hnames : names_of (pin_store state_abc) [0; 1; 2]%nat
                     ["a"; "b"; "c"]%string).
  { repeat constructor; eexists; (split; [reflexivity|reflexivity]). }
  assert (Hsorted : StronglySorted str_lt ["a"; "b"; "c"]%string)
    by (repeat constructor).
  split; [exact Hnames|]. split; [exact Hsorted|]. split.
  - destruct (find_position_counts_smaller_names (pin_store state_abc) [0; 1; 2]%nat
                ["a"; "b"; "c"]%string "b" Hnames Hsorted) as (p & Hrun & -> & _).
    exact Hrun.
  - destruct (find_position_counts_smaller_names (pin_store state_abc) [0; 1; 2]%nat
                ["a"; "b"; "c"]%string "bb" Hnames Hsorted) as (p & Hrun & -> & _).
    exact Hrun.
Defined.

(** ** A whole bus handed to [add_node] *)

(** X20.  [add_node] given one association of a whole multi-bit net (port
    index -1, wire index below the net's range).  For a net of two bits the
    node receives a single association, with the port name, port index 0 and
    the bit [left]: the bit [right] is in no association.  For any wider net
    the insertion loop runs, and its first pass copies a port name from a
    block that was allocated and never written: the call has no defined
    result. *)
Theorem add_node_whole_bus (st : state) (type name : string)
    (port : string) (net : ptr) (p : t_pin_def) (w : Z) :
  pin_store st !! net = Some (Some p) ->
  ~ scalar p ->
  w < Z.min (pin_left p) (pin_right p) ->
  add_node type name (Some [mk_assoc port (-1) net w]) st
  = if decide (width p = 1)
    then Ok (mk_state (pin_store st)
               (node_store st ++ [mk_node type name [] [mk_assoc port 0 net (pin_left p)]])
               (module_list st) (assignment_list st)
               (Some (default [] (node_list st) ++ [length (node_store st)]))
               (pin_list st) (Some (length (node_store st))) (yylineno st)
               (console st))
    else Fault.
Proof.
  intros Hp Hbus Hw.
  assert (Hwidth : 1 <= width p) by (unfold scalar, width in *; lia).
  assert (Habs : my_abs (pin_left p - pin_right p) = width p).
  { unfold my_abs, width. destruct (Z.ltb_spec (pin_left p - pin_right p) 0); lia. }
  assert (Hmin : my_min (pin_left p) (pin_right p) = Z.min (pin_left p) (pin_right p)).
  { unfold my_min. destruct (Z.ltb_spec (pin_left p) (pin_right p)); lia. }
  unfold add_node. cbn [length expand_ports element].
  change (0 <? Z.of_nat 1) with true. change (Z.to_nat 0) with 0%nat.
  change (element [mk_assoc port (-1) net w] 0) with (Ok (mk_assoc port (-1) net w)).
  cbn [rbind associated_net].
  rewrite (deref_pin_live _ _ _ Hp).
  cbn [rbind port_index wire_index port_name associated_net].
  unfold scalar in Hbus.
  destruct (Z.eqb_spec (pin_left p - pin_right p) 0); [lia|].
  rewrite Hmin. destruct (Z.ltb_spec w (Z.min (pin_left p) (pin_right p))); [|lia].
  cbn [negb andb Z.eqb insert list_insert]. rewrite Habs.
  replace (Z.to_nat (0 + width p - (0 + 1))) with (Z.to_nat (width p) - 1)%nat by lia.
  case_decide as Hone.
  - rewrite Hone. cbn [Z.to_nat Pos.to_nat Pos.iter_op Nat.sub insert_bus_wires rbind].
    cbn [length]. change (0 + (1 + 1) + 1 <? Z.of_nat 1) with false. cbn [rbind].
    reflexivity.
  - destruct (Z.to_nat (width p) - 1)%nat as [|k] eqn:Hk; [lia|].
    reflexivity.
Qed.

Lemma add_node_whole_bus_witness :
  ~ scalar net_w /\ -1 < Z.min (pin_left net_w) (pin_right net_w)
  /\ add_node "lcell" "n1" (Some [mk_assoc "in" (-1) 0%nat (-1)]) state_w
     = Ok (mk_state [Some net_w] [mk_node "lcell" "n1" [] [mk_assoc "in" 0 0%nat 1]]
             None None (Some [0%nat]) (Some [0%nat]) (Some 0%nat) 1 []).
Proof.
  assert (Hbus : ~ scalar net_w) by discriminate.
  assert (Hw : -1 < Z.min (pin_left net_w) (pin_right net_w)) by (cbn; lia).
  split; [exact Hbus|]. split; [exact Hw|].
  exact (add_node_whole_bus state_w "lcell" "n1" "in" 0%nat net_w (-1) eq_refl Hbus Hw).
Defined.
